(** * rest_rpc client: subscription sessions and their registry

    Shallow embedding of [rest_rpc/client/detail/async_sub_session.hpp]
    (namespace [timax::rpc]): the completion handlers of [sub_session] and
    the keyed store of [sub_manager].

    Asynchronous operations are not executed by the handlers themselves:
    a handler returns the new state together with the list of operations it
    issued and user callbacks it invoked, in program order.  A completion is
    later delivered to the handler that the operation was bound to. *)

From stdpp Require Import gmap strings list fin_maps.
From Stdlib Require Import ZArith NArith.
From Stdlib.Strings Require Import Byte.

Set Default Proof Using "Type".
Local Open Scope Z_scope.

(** ** Data *)

(** [char const*, size_t] pairs and [std::vector<char>]. *)
Abbreviation bytes := (list Byte.byte).

(** [tcp::endpoint]: an address and a port. *)
Abbreviation endpoint := (N * N)%type.

(** Modelled from the spec: [head_t] is declared in forward.hpp, which is
    not part of the sources at hand.  The spec's WireHeader has a payload
    length (uint32) and a result code; the session reads exactly the members
    [len] and [code]. *)
Record head_t := { code : Z; len : N }.

(** [head_t h = { 0 };] *)
Definition head_zero : head_t := {| code := 0; len := 0 |}.

(** Modelled from the spec: [result_code] is declared in forward.hpp; the
    spec fixes OK = 0 and every other value as a failure. *)
Definition result_code_OK : Z := 0.

(** Modelled from the spec: [error_code] is declared in forward.hpp.  Its
    members are the two that the session source names, [UNKNOWN] and
    [BADCONNECTION], and the remaining kinds of the spec's error taxonomy. *)
Inductive error_code :=
| UNKNOWN
| BADCONNECTION
| SERVER_REJECTED
| MALFORMED_HANDSHAKE_REPLY
| ALREADY_SUBSCRIBED.

(** [timax::rpc::exception]: a kind and a human-readable message. *)
Record exception := { ex_code : error_code; ex_message : string }.

(** [boost::system::error_code]: [!error] holds exactly when the value is
    zero; [error.message()] is the system text. *)
Record sys_error := { value : Z; message : string }.

Definition failed (error : sys_error) : bool := negb (value error =? 0).

(** The topic descriptor handed to [sub]: [protocol.name()] and the bytes
    of [protocol.pack_topic(cp)]. *)
Record protocol_t := { name : string; pack_topic : bytes }.

(** Addresses of [sub_session] objects, as held by [std::shared_ptr]. *)
Abbreviation sub_session_ptr := nat.

(** [sub_manager::topics_map_t] and [sub_manager::endpoint_map_t]. *)
Abbreviation topics_map_t := (gmap string sub_session_ptr).
Abbreviation endpoint_map_t := (gmap endpoint topics_map_t).

(** The members of [sub_session].  [connection_] is an external
    collaborator, of which the session observes the endpoint and whether
    the socket is open.  [hb_timer_] has no state of its own here: a pending
    wait is an issued operation.  For the two [std::function] members the
    record keeps whether they hold a target. *)
Record sub_session := {
  connection_endpoint : endpoint;
  socket_is_open : bool;
  send_head_ : head_t;
  recv_head_ : head_t;
  topic_string_ : string;
  topic_ : bytes;
  response_ : bytes;
  function_ : bool;
  error_ : bool;
  running_flag_ : bool
}.

(** The process-wide state the handlers reach: the two static
    [std::function] slots of [sub_session] ([get_on_error] and
    [get_deserialize_exception]) and the store of the [sub_manager] whose
    constructor filled them. *)
Record process := {
  on_error_func : option (sub_session -> endpoint_map_t -> endpoint_map_t);
  on_deserialize_exception : option (bytes -> exception);
  topics_ : endpoint_map_t
}.

(** A handler runs on its own session and on the process-wide state. *)
Record state := { self : sub_session; proc : process }.

(** The completion handlers an operation can be bound to. *)
Inductive handler :=
| h_request_sub
| h_response_sub_head
| h_response_sub_body
| h_sub_head
| h_sub_body
| h_heartbeat
| h_send_hb.

(** One buffer of a scatter write. *)
Inductive buffer :=
| buf_head (h : head_t)
| buf_bytes (b : bytes).

(** What a piece of code does besides changing the state. *)
Inductive action :=
| connection_start
| async_write (bufs : list buffer) (k : handler)
| async_read_head (k : handler)
| async_read_body (size : nat) (k : handler)
| async_wait (seconds : Z) (k : handler)
| call_function (data : bytes)
| call_error (e : exception)
| call_on_error_func (ep : endpoint) (topic : string).

(** ** Field updates *)

Definition set_running_flag (b : bool) (s : sub_session) : sub_session :=
  {| connection_endpoint := connection_endpoint s;
     socket_is_open := socket_is_open s;
     send_head_ := send_head_ s;
     recv_head_ := recv_head_ s;
     topic_string_ := topic_string_ s;
     topic_ := topic_ s;
     response_ := response_ s;
     function_ := function_ s;
     error_ := error_ s;
     running_flag_ := b |}.

Definition set_send_head (h : head_t) (s : sub_session) : sub_session :=
  {| connection_endpoint := connection_endpoint s;
     socket_is_open := socket_is_open s;
     send_head_ := h;
     recv_head_ := recv_head_ s;
     topic_string_ := topic_string_ s;
     topic_ := topic_ s;
     response_ := response_ s;
     function_ := function_ s;
     error_ := error_ s;
     running_flag_ := running_flag_ s |}.

Definition set_recv_head (h : head_t) (s : sub_session) : sub_session :=
  {| connection_endpoint := connection_endpoint s;
     socket_is_open := socket_is_open s;
     send_head_ := send_head_ s;
     recv_head_ := h;
     topic_string_ := topic_string_ s;
     topic_ := topic_ s;
     response_ := response_ s;
     function_ := function_ s;
     error_ := error_ s;
     running_flag_ := running_flag_ s |}.

Definition set_response (r : bytes) (s : sub_session) : sub_session :=
  {| connection_endpoint := connection_endpoint s;
     socket_is_open := socket_is_open s;
     send_head_ := send_head_ s;
     recv_head_ := recv_head_ s;
     topic_string_ := topic_string_ s;
     topic_ := topic_ s;
     response_ := r;
     function_ := function_ s;
     error_ := error_ s;
     running_flag_ := running_flag_ s |}.

Definition set_len (n : N) (h : head_t) : head_t :=
  {| code := code h; len := n |}.

Definition with_self (s : sub_session) (st : state) : state :=
  {| self := s; proc := proc st |}.

Definition with_topics (t : endpoint_map_t) (st : state) : state :=
  {| self := self st;
     proc := {| on_error_func := on_error_func (proc st);
                on_deserialize_exception := on_deserialize_exception (proc st);
                topics_ := t |} |}.

(** ** class sub_session *)

Section SubSession.

(** [sub_topic.name()]: the name of the subscribe procedure, a constant of
    forward.hpp. *)
Variable sub_topic_name : string.

(** The constructor: both heads are zeroed, the receive buffer is empty,
    and nothing is stored to the running flag (taken as [false]) before
    [start].  The connection is built from the endpoint, its socket not
    yet open. *)
Definition make_session (ep : endpoint) (topic_string : string)
    (topic : bytes) (func : bool) (error : bool) : sub_session :=
  {| connection_endpoint := ep;
     socket_is_open := false;
     send_head_ := head_zero;
     recv_head_ := head_zero;
     topic_string_ := topic_string;
     topic_ := topic;
     response_ := [];
     function_ := func;
     error_ := error;
     running_flag_ := false |}.

Definition get_endpoint (s : sub_session) : endpoint := connection_endpoint s.

Definition get_topic (s : sub_session) : string := topic_string_ s.

Definition stop (s : sub_session) : sub_session := set_running_flag false s.

(** [start] stores [true] and hands two continuations to the connection:
    [on_connected] and [on_connect_failed] below. *)
Definition start (s : sub_session) : sub_session * list action :=
  (set_running_flag true s, [connection_start]).

Definition request_sub_message (s : sub_session) : sub_session * list buffer :=
  let request_rpc := sub_topic_name in
  let n := (N.of_nat (String.length request_rpc) + N.of_nat (length (topic_ s)) + 1)%N in
  let s' := set_send_head (set_len (n mod 2 ^ 32)%N (send_head_ s)) s in
  (s', [buf_head (send_head_ s');
        buf_bytes (String.list_byte_of_string request_rpc ++ [x00]);
        buf_bytes (topic_ s)]).

Definition request_sub (st : state) : state * list action :=
  if running_flag_ (self st) then
    let '(s', requet_message) := request_sub_message (self st) in
    (with_self s' st, [async_write requet_message h_request_sub])
  else (st, []).

Definition on_connected (st : state) : state * list action := request_sub st.

Definition on_connect_failed (st : state) : state * list action :=
  (with_self (stop (self st)) st, []).

Definition setup_heartbeat_timer : list action := [async_wait 15 h_heartbeat].

Definition recv_sub_head : list action := [async_read_head h_sub_head].

Definition begin_sub_procedure : list action :=
  setup_heartbeat_timer ++ recv_sub_head.

(** [on_error(exception const&)] *)
Definition on_error (e : exception) (st : state) : state * list action :=
  let user := if error_ (self st) then [call_error e] else [] in
  match on_error_func (proc st) with
  | Some on_error_func =>
      (with_topics (on_error_func (self st) (topics_ (proc st))) st,
       user ++ [call_on_error_func (get_endpoint (self st)) (get_topic (self st))])
  | None => (st, user)
  end.

(** [on_error()] *)
Definition on_error_response (st : state) : state * list action :=
  match on_deserialize_exception (proc st) with
  | Some deserialize_exception =>
      let e := deserialize_exception (response_ (self st)) in
      on_error e st
  | None => (st, [])
  end.

Definition bad_connection (error : sys_error) : exception :=
  {| ex_code := BADCONNECTION; ex_message := message error |}.

(** [connection_.socket().is_open() && running_flag_.load()] *)
Definition alive (st : state) : bool :=
  socket_is_open (self st) && running_flag_ (self st).

Definition handle_request_sub (error : sys_error) (st : state)
    : state * list action :=
  if negb (alive st) then (st, [])
  else if negb (failed error) then
    (st, [async_read_head h_response_sub_head])
  else on_error (bad_connection error) st.

Definition handle_response_sub_head (error : sys_error) (st : state)
    : state * list action :=
  if negb (alive st) then (st, [])
  else if negb (failed error) then
    if (0 <? len (recv_head_ (self st)))%N then
      let n := N.to_nat (len (recv_head_ (self st))) in
      (with_self (set_response (resize n x00 (response_ (self st))) (self st)) st,
       [async_read_body n h_response_sub_body])
    else (st, [])
  else on_error (bad_connection error) st.

Definition handle_response_sub_body (error : sys_error) (st : state)
    : state * list action :=
  if negb (alive st) then (st, [])
  else if negb (failed error) then
    if result_code_OK =? code (recv_head_ (self st)) then
      (st, begin_sub_procedure)
    else on_error_response st
  else on_error (bad_connection error) st.

Definition handle_sub_head (error : sys_error) (st : state)
    : state * list action :=
  if negb (alive st) then (st, [])
  else if negb (failed error) then
    if (0 <? len (recv_head_ (self st)))%N then
      let n := N.to_nat (len (recv_head_ (self st))) in
      (with_self (set_response (resize n x00 (response_ (self st))) (self st)) st,
       [async_read_body n h_sub_body])
    else (st, recv_sub_head)
  else on_error (bad_connection error) st.

Definition handle_sub_body (error : sys_error) (st : state)
    : state * list action :=
  if negb (alive st) then (st, [])
  else if negb (failed error) then
    (st, (if function_ (self st) then [call_function (response_ (self st))] else [])
           ++ recv_sub_head)
  else on_error (bad_connection error) st.

Definition handle_heartbeat (error : sys_error) (st : state)
    : state * list action :=
  if negb (alive st) then (st, [])
  else if negb (failed error) then
    let s' := set_send_head head_zero (self st) in
    (with_self s' st,
     [async_write [buf_head (send_head_ s')] h_send_hb] ++ setup_heartbeat_timer)
  else (st, []).

Definition handle_send_hb (error : sys_error) (st : state)
    : state * list action :=
  if negb (alive st) then (st, [])
  else if failed error then on_error (bad_connection error) st
  else (st, []).

(** [boost::bind(&sub_session::handle_..., shared_from_this(), error)] *)
Definition run_handler (k : handler) : sys_error -> state -> state * list action :=
  match k with
  | h_request_sub => handle_request_sub
  | h_response_sub_head => handle_response_sub_head
  | h_response_sub_body => handle_response_sub_body
  | h_sub_head => handle_sub_head
  | h_sub_body => handle_sub_body
  | h_heartbeat => handle_heartbeat
  | h_send_hb => handle_send_hb
  end.

End SubSession.

(** ** The receive chain

    A session has at most one read outstanding: the next read is issued
    from the completion handler of the previous one.  [receive_chain]
    completes the outstanding read with the next piece arriving on the
    socket, without transport error, and runs the bound handler. *)

Inductive wire :=
| wire_head (h : head_t)
| wire_body (b : bytes).

Inductive read_op :=
| read_head (k : handler)
| read_body (size : nat) (k : handler).

(** A frame as it arrives: its header, then its body when there is one. *)
Definition frame (h : head_t) (body : bytes) : list wire :=
  wire_head h :: (if (0 <? len h)%N then [wire_body body] else []).

Fixpoint issued_read (acts : list action) : option read_op :=
  match acts with
  | [] => None
  | async_read_head k :: _ => Some (read_head k)
  | async_read_body n k :: _ => Some (read_body n k)
  | _ :: acts => issued_read acts
  end.

Definition success : sys_error := {| value := 0; message := "Success" |}.

(** [async_read] fills the buffer it was given ([recv_head_], or the whole
    of [response_]) before it calls the handler. *)
Definition complete_read (op : read_op) (w : wire) (st : state)
    : option (state * list action) :=
  match op, w with
  | read_head k, wire_head h =>
      Some (run_handler k success (with_self (set_recv_head h (self st)) st))
  | read_body n k, wire_body b =>
      if decide (length b = n)
      then Some (run_handler k success (with_self (set_response b (self st)) st))
      else None
  | _, _ => None
  end.

Fixpoint receive_chain (input : list wire) (op : option read_op) (st : state)
    : state * list action * option read_op :=
  match input, op with
  | w :: input', Some o =>
      match complete_read o w st with
      | Some (st', acts) =>
          let '(st'', acts', op') := receive_chain input' (issued_read acts) st' in
          (st'', acts ++ acts', op')
      | None => (st, [], op)
      end
  | _, _ => (st, [], op)
  end.

(** Completions delivered one after the other, each to its bound handler. *)
Fixpoint run_completions (cs : list (handler * sys_error)) (st : state)
    : state * list action :=
  match cs with
  | [] => (st, [])
  | (k, error) :: cs' =>
      let '(st', acts) := run_handler k error st in
      let '(st'', acts') := run_completions cs' st' in
      (st'', acts ++ acts')
  end.

Definition is_call_function (a : action) : bool :=
  match a with call_function _ => true | _ => false end.

Definition is_call_error (a : action) : bool :=
  match a with call_error _ => true | _ => false end.

Definition is_async (a : action) : bool :=
  match a with
  | connection_start | async_write _ _ | async_read_head _
  | async_read_body _ _ | async_wait _ _ => true
  | _ => false
  end.

Definition is_async_wait (a : action) : bool :=
  match a with async_wait _ _ => true | _ => false end.

(** ** class sub_manager *)

Definition remove (session : sub_session) (topics_ : endpoint_map_t)
    : endpoint_map_t :=
  match topics_ !! get_endpoint session with
  | Some topics_in_endpoint =>
      let topics_in_endpoint' :=
        match topics_in_endpoint !! get_topic session with
        | Some _ => delete (get_topic session) topics_in_endpoint
        | None => topics_in_endpoint
        end in
      if decide (topics_in_endpoint' = ∅)
      then delete (get_endpoint session) topics_
      else <[get_endpoint session := topics_in_endpoint']> topics_
  | None => topics_
  end.

(** The constructor fills both static slots; [unpack_exception] is
    [codec_policy::unpack<exception>]. *)
Definition sub_manager_ctor (unpack_exception : bytes -> exception) : process :=
  {| on_error_func := Some remove;
     on_deserialize_exception := Some unpack_exception;
     topics_ := ∅ |}.

(** The session registered for a key, through both levels of the store. *)
Definition find_session (topics_ : endpoint_map_t) (ep : endpoint) (topic : string)
    : option sub_session_ptr :=
  topics_ !! ep ≫= λ topics_in_endpoint, topics_in_endpoint !! topic.

(** No endpoint is kept with an empty topic map. *)
Definition no_empty_bucket (topics_ : endpoint_map_t) : Prop :=
  ∀ ep topics_in_endpoint,
    topics_ !! ep = Some topics_in_endpoint → topics_in_endpoint ≠ ∅.

(** The manager together with the session objects it made. *)
Record world := {
  heap : gmap sub_session_ptr sub_session;
  manager : process
}.

Inductive outcome :=
| returned
| thrown (e : exception).

Inductive event :=
| make_shared (p : sub_session_ptr)
| released (p : sub_session_ptr)
| session_action (p : sub_session_ptr) (a : action).

Definition set_topics (t : endpoint_map_t) (w : world) : world :=
  {| heap := heap w;
     manager := {| on_error_func := on_error_func (manager w);
                   on_deserialize_exception := on_deserialize_exception (manager w);
                   topics_ := t |} |}.

Definition set_heap (h : gmap sub_session_ptr sub_session) (w : world) : world :=
  {| heap := h; manager := manager w |}.

(** [session->start()] *)
Definition start_session (session : sub_session_ptr) (w : world)
    : world * list event :=
  match heap w !! session with
  | Some s =>
      let '(s', acts) := start s in
      (set_heap (<[session := s']> (heap w)) w, session_action session <$> acts)
  | None => (w, [])
  end.

Definition already_existed : exception :=
  {| ex_code := UNKNOWN; ex_message := "Sub topic already existed!" |}.

Definition sub_impl (ep : endpoint) (topic : string) (session : sub_session_ptr)
    (w : world) : world * outcome * list event :=
  match topics_ (manager w) !! ep with
  | None =>
      let topic_map : topics_map_t := <[topic := session]> ∅ in
      let '(w', evs) :=
        start_session session (set_topics (<[ep := topic_map]> (topics_ (manager w))) w) in
      (w', returned, evs)
  | Some topics_in_endpoint =>
      match topics_in_endpoint !! topic with
      | Some _ => (w, thrown already_existed, [])
      | None =>
          let '(w', evs) :=
            start_session session
              (set_topics (<[ep := <[topic := session]> topics_in_endpoint]>
                             (topics_ (manager w))) w) in
          (w', returned, evs)
      end
  end.

(** [make_proc_func] always yields a callable; [error] tells whether the
    overload with an error callback is the one called. *)
Definition make_sub_session (ep : endpoint) (protocol : protocol_t) (error : bool)
    (w : world) : world * sub_session_ptr * list event :=
  let topic := pack_topic protocol in
  let p := fresh (dom (heap w)) in
  (set_heap (<[p := make_session ep (name protocol) topic true error]> (heap w)) w,
   p, [make_shared p]).

(** Both overloads of [sub].  When [sub_impl] throws, the local
    [shared_ptr] is the only owner of the new session, which is released
    while the exception leaves [sub]. *)
Definition sub (ep : endpoint) (protocol : protocol_t) (error : bool) (w : world)
    : world * outcome * list event :=
  let '(w1, session, evs1) := make_sub_session ep protocol error w in
  let '(w2, out, evs2) := sub_impl ep (name protocol) session w1 in
  match out with
  | returned => (w2, returned, evs1 ++ evs2)
  | thrown e =>
      (set_heap (delete session (heap w2)) w2, thrown e,
       evs1 ++ evs2 ++ [released session])
  end.

Definition is_make_shared (e : event) : bool :=
  match e with make_shared _ => true | _ => false end.

Definition is_session_action (e : event) : bool :=
  match e with session_action _ _ => true | _ => false end.

(** A run of frames as the socket delivers it, and the bodies among them
    that are messages (those of the frames with a non-zero length). *)
Fixpoint frames (fs : list (head_t * bytes)) : list wire :=
  match fs with
  | [] => []
  | (h, body) :: fs' => frame h body ++ frames fs'
  end.

Fixpoint messages (fs : list (head_t * bytes)) : list bytes :=
  match fs with
  | [] => []
  | (h, body) :: fs' =>
      if (0 <? len h)%N then body :: messages fs' else messages fs'
  end.

Definition frame_ok (f : head_t * bytes) : Prop :=
  length f.2 = N.to_nat (len f.1).

Definition is_read_head (a : action) : bool :=
  match a with async_read_head _ => true | _ => false end.

(** ** Sample values *)

(** 127.0.0.1:9000 and 127.0.0.1:9001 *)
Definition ep0 : endpoint := (2130706433, 9000)%N.
Definition ep1 : endpoint := (2130706433, 9001)%N.

(** A toy codec for exceptions: the first byte tells the kind, the rest is
    the message. *)
Definition toy_unpack (data : bytes) : exception :=
  match data with
  | [] => {| ex_code := UNKNOWN; ex_message := "" |}
  | b :: rest =>
      {| ex_code := if Byte.eqb b x01 then SERVER_REJECTED else UNKNOWN;
         ex_message := String.string_of_list_byte rest |}
  end.

Definition news : protocol_t := {| name := "news"; pack_topic := [x6e; x77] |}.

(** A session of topic [news] at [ep0] whose connection is established and
    which is running; [error] tells whether it has an error callback. *)
Definition running_session (error : bool) : sub_session :=
  {| connection_endpoint := ep0;
     socket_is_open := true;
     send_head_ := head_zero;
     recv_head_ := head_zero;
     topic_string_ := name news;
     topic_ := pack_topic news;
     response_ := [];
     function_ := true;
     error_ := error;
     running_flag_ := true |}.

(** A store with [news] and [sport] at [ep0] and [news] at [ep1]. *)
Definition three_topics : endpoint_map_t :=
  {[ ep0 := {[ "news"%string := 1%nat; "sport"%string := 2%nat ]};
     ep1 := {[ "news"%string := 3%nat ]} ]}.

Definition one_topic : endpoint_map_t := {[ ep0 := {[ "news"%string := 1%nat ]} ]}.

(** The process of one manager with codec [toy_unpack] and a given store. *)
Definition process_with (t : endpoint_map_t) : process :=
  {| on_error_func := on_error_func (sub_manager_ctor toy_unpack);
     on_deserialize_exception := on_deserialize_exception (sub_manager_ctor toy_unpack);
     topics_ := t |}.

Definition running_state (error : bool) : state :=
  {| self := running_session error; proc := process_with one_topic |}.

Definition broken_pipe : sys_error := {| value := 32; message := "Broken pipe" |}.

Definition operation_aborted : sys_error :=
  {| value := 125; message := "Operation canceled" |}.

(** A world in which session 1 is registered for [news] at [ep0]. *)
Definition one_session_world : world :=
  {| heap := {[ 1%nat := running_session true ]};
     manager := process_with one_topic |}.

(** Frames of the steady state: a message of 37 bytes, a heartbeat
    acknowledgement, a message of 12 bytes. *)
Definition head_of_len (n : N) : head_t := {| code := result_code_OK; len := n |}.
Definition body37 : bytes := replicate 37 x61.
Definition body12 : bytes := replicate 12 x62.

(** A handshake reply that rejects the subscription: kind byte 1, then the
    text "topic unknown". *)
Definition denied_body : bytes :=
  x01 :: String.list_byte_of_string "topic unknown".
Definition denied_head : head_t := {| code := 1; len := 14 |}.

(** The handshake acknowledgement with result OK and no body. *)
Definition ok_empty_head : head_t := {| code := result_code_OK; len := 0 |}.

(** ** The manager and its sessions, step by step *)

(** Bytes of a scatter write that follow the header. *)
Fixpoint payload_size (bufs : list buffer) : nat :=
  match bufs with
  | [] => 0
  | buf_head _ :: bufs' => payload_size bufs'
  | buf_bytes b :: bufs' => length b + payload_size bufs'
  end.

Definition is_async_read (a : action) : bool :=
  match a with async_read_head _ | async_read_body _ _ => true | _ => false end.

Definition is_async_write (a : action) : bool :=
  match a with async_write _ _ => true | _ => false end.

Definition is_callback (a : action) : bool :=
  match a with
  | call_function _ | call_error _ | call_on_error_func _ _ => true
  | _ => false
  end.

(** The connection opens or closes its socket. *)
Definition set_socket_is_open (b : bool) (s : sub_session) : sub_session :=
  {| connection_endpoint := connection_endpoint s;
     socket_is_open := b;
     send_head_ := send_head_ s;
     recv_head_ := recv_head_ s;
     topic_string_ := topic_string_ s;
     topic_ := topic_ s;
     response_ := response_ s;
     function_ := function_ s;
     error_ := error_ s;
     running_flag_ := running_flag_ s |}.

(** [remove(session)], the session reached through its pointer. *)
Definition remove_session (session : sub_session_ptr) (w : world) : world :=
  match heap w !! session with
  | Some s => set_topics (remove s (topics_ (manager w))) w
  | None => w
  end.

(** A completion delivered to handler [k] of the session at [p]: the
    handler runs on that object and on the process-wide state. *)
Definition complete_at (p : sub_session_ptr) (k : handler) (error : sys_error)
    (w : world) : world * list event :=
  match heap w !! p with
  | Some s =>
      let '(st', acts) := run_handler k error {| self := s; proc := manager w |} in
      ({| heap := <[p := self st']> (heap w); manager := proc st' |},
       session_action p <$> acts)
  | None => (w, [])
  end.

(** What happens to a manager and its sessions: calls of [sub] and
    [remove], completions, and what the transport does to a session's
    buffers and socket between them. *)
Inductive step :=
| step_sub (ep : endpoint) (protocol : protocol_t) (error : bool)
| step_remove (session : sub_session_ptr)
| step_complete (p : sub_session_ptr) (k : handler) (error : sys_error)
| step_fill_head (p : sub_session_ptr) (h : head_t)
| step_fill_body (p : sub_session_ptr) (b : bytes)
| step_socket (p : sub_session_ptr) (open : bool).

Definition update_at (p : sub_session_ptr) (f : sub_session -> sub_session)
    (w : world) : world :=
  match heap w !! p with
  | Some s => set_heap (<[p := f s]> (heap w)) w
  | None => w
  end.

Definition run_step (x : step) (w : world) : world :=
  match x with
  | step_sub ep protocol error => (sub ep protocol error w).1.1
  | step_remove session => remove_session session w
  | step_complete p k error => (complete_at p k error w).1
  | step_fill_head p h => update_at p (set_recv_head h) w
  | step_fill_body p b => update_at p (set_response b) w
  | step_socket p open => update_at p (set_socket_is_open open) w
  end.

Fixpoint run_steps (xs : list step) (w : world) : world :=
  match xs with
  | [] => w
  | x :: xs' => run_steps xs' (run_step x w)
  end.

(** A manager just constructed, with no session object yet. *)
Definition new_world (unpack_exception : bytes -> exception) : world :=
  {| heap := ∅; manager := sub_manager_ctor unpack_exception |}.

(** Every stored pointer is that of a session object whose endpoint and
    topic are the key it is stored under. *)
Definition registry_consistent (w : world) : Prop :=
  ∀ ep t p,
    find_session (topics_ (manager w)) ep t = Some p →
    ∃ s, heap w !! p = Some s ∧ get_endpoint s = ep ∧ get_topic s = t.

(** What holds of a manager and its sessions at every moment: its hook is
    installed, no topic map is empty, the store is consistent. *)
Definition world_invariant (w : world) : Prop :=
  on_error_func (manager w) = Some remove
  ∧ no_empty_bucket (topics_ (manager w))
  ∧ registry_consistent w.

(** The same session and process, the send header apart. *)
Definition same_but_send_head (st1 st2 : state) : Prop :=
  proc st1 = proc st2
  ∧ set_send_head head_zero (self st1) = set_send_head head_zero (self st2).

Definition sport : protocol_t := {| name := "sport"; pack_topic := [x73] |}.

(** A world in which session 1, of [news] at [ep0], exists but is not in
    the store. *)
Definition empty_store_world : world :=
  {| heap := {[ 1%nat := running_session true ]};
     manager := process_with ∅ |}.

(** * Properties *)

(** Projections of updated records. *)
Ltac fields :=
  cbn [self proc with_self with_topics set_running_flag set_send_head
       set_recv_head set_response connection_endpoint socket_is_open
       send_head_ recv_head_ topic_string_ topic_ response_ function_
       error_ running_flag_ on_error_func on_deserialize_exception topics_
       get_endpoint get_topic fst snd].

(** ** The store *)

Lemma remove_unfold S r :
  remove S r =
  match r !! get_endpoint S with
  | Some b =>
      if decide (delete (get_topic S) b = ∅)
      then delete (get_endpoint S) r
      else <[get_endpoint S := delete (get_topic S) b]> r
  | None => r
  end.
Proof.
  unfold remove. destruct (r !! get_endpoint S) as [b|] eqn:Hb; [|done].
  destruct (b !! get_topic S) eqn:Ht; [done|].
  by rewrite (delete_id b (get_topic S) Ht).
Qed.

Lemma remove_lookup_same S r b :
  r !! get_endpoint S = Some b →
  remove S r !! get_endpoint S =
    if decide (delete (get_topic S) b = ∅) then None else Some (delete (get_topic S) b).
Proof.
  intros Hb. rewrite remove_unfold, Hb. case_decide.
  - apply lookup_delete_eq.
  - apply lookup_insert_eq.
Qed.

Lemma remove_lookup_other S r ep :
  ep ≠ get_endpoint S → remove S r !! ep = r !! ep.
Proof.
  intros Hne. rewrite remove_unfold.
  destruct (r !! get_endpoint S) as [b|] eqn:Hb; [|done]. case_decide.
  - by rewrite lookup_delete_ne.
  - by rewrite lookup_insert_ne.
Qed.

Lemma remove_find_same S r :
  find_session (remove S r) (get_endpoint S) (get_topic S) = None.
Proof.
  unfold find_session.
  destruct (r !! get_endpoint S) as [b|] eqn:Hb.
  - rewrite (remove_lookup_same S r b Hb). case_decide; [done|].
    simpl. apply lookup_delete_eq.
  - rewrite remove_unfold, Hb, Hb. done.
Qed.

Lemma remove_find_other S r ep t :
  (ep, t) ≠ (get_endpoint S, get_topic S) →
  find_session (remove S r) ep t = find_session r ep t.
Proof.
  intros Hne. unfold find_session.
  destruct (decide (ep = get_endpoint S)) as [->|Hep].
  - assert (t ≠ get_topic S) as Ht by congruence.
    destruct (r !! get_endpoint S) as [b|] eqn:Hb.
    + rewrite (remove_lookup_same S r b Hb). case_decide as He; simpl.
      * rewrite <- (lookup_delete_ne b (get_topic S) t) by done.
        by rewrite He, lookup_empty.
      * by rewrite lookup_delete_ne.
    + by rewrite remove_unfold, Hb, Hb.
  - by rewrite remove_lookup_other.
Qed.

Lemma remove_absent S r :
  no_empty_bucket r →
  find_session r (get_endpoint S) (get_topic S) = None →
  remove S r = r.
Proof.
  intros Hwf Hnone. unfold find_session in Hnone. rewrite remove_unfold.
  destruct (r !! get_endpoint S) as [b|] eqn:Hb; [|done]. simpl in Hnone.
  rewrite (delete_id b _ Hnone). case_decide as He.
  - by destruct (Hwf _ _ Hb).
  - by apply insert_id.
Qed.

Lemma remove_idempotent S r : remove S (remove S r) = remove S r.
Proof.
  rewrite (remove_unfold S (remove S r)).
  destruct (r !! get_endpoint S) as [b|] eqn:Hb.
  - rewrite (remove_lookup_same S r b Hb). case_decide as He; [done|].
    rewrite delete_delete_eq. rewrite decide_False by done.
    rewrite remove_unfold, Hb, decide_False by done.
    apply insert_insert_eq.
  - by rewrite remove_unfold, Hb, Hb.
Qed.

Lemma remove_no_empty_bucket S r :
  no_empty_bucket r → no_empty_bucket (remove S r).
Proof.
  intros Hwf ep b. destruct (decide (ep = get_endpoint S)) as [->|Hep].
  - destruct (r !! get_endpoint S) as [b0|] eqn:Hb.
    + rewrite (remove_lookup_same S r b0 Hb). case_decide; [done|]. congruence.
    + rewrite remove_unfold, Hb, Hb. done.
  - rewrite remove_lookup_other by done. apply Hwf.
Qed.

Lemma no_empty_bucket_empty : no_empty_bucket ∅.
Proof. intros ep b. by rewrite lookup_empty. Qed.

Lemma no_empty_bucket_insert (r : endpoint_map_t) ep (b : topics_map_t) :
  no_empty_bucket r → b ≠ ∅ → no_empty_bucket (<[ep := b]> r).
Proof.
  intros Hwf Hb ep' b'. destruct (decide (ep = ep')) as [->|Hne].
  - rewrite lookup_insert_eq. congruence.
  - rewrite lookup_insert_ne by done. apply Hwf.
Qed.

Lemma start_session_topics p w :
  topics_ (manager (start_session p w).1) = topics_ (manager w).
Proof.
  unfold start_session. by destruct (heap w !! p).
Qed.

(** [sub_impl] never stores an empty topic map. *)
Lemma sub_impl_no_empty_bucket ep topic p w :
  no_empty_bucket (topics_ (manager w)) →
  no_empty_bucket (topics_ (manager (sub_impl ep topic p w).1.1)).
Proof.
  intros Hwf. unfold sub_impl.
  destruct (topics_ (manager w) !! ep) as [b|] eqn:Hb.
  - destruct (b !! topic); [done|].
    match goal with |- context [start_session ?q ?v] =>
      pose proof (start_session_topics q v) as Ht;
      destruct (start_session q v) as [w' evs] end.
    simpl in *. rewrite Ht. apply no_empty_bucket_insert; [done|].
    apply insert_non_empty.
  - match goal with |- context [start_session ?q ?v] =>
      pose proof (start_session_topics q v) as Ht;
      destruct (start_session q v) as [w' evs] end.
    simpl in *. rewrite Ht. apply no_empty_bucket_insert; [done|].
    apply insert_non_empty.
Qed.

(** Neither does [sub], which only reaches the store through [sub_impl]. *)
Lemma sub_no_empty_bucket ep protocol error w :
  no_empty_bucket (topics_ (manager w)) →
  no_empty_bucket (topics_ (manager (sub ep protocol error w).1.1)).
Proof.
  intros Hwf. unfold sub, make_sub_session.
  match goal with |- context [sub_impl ?e ?t ?q ?v] =>
    pose proof (sub_impl_no_empty_bucket e t q v Hwf) as Hs;
    destruct (sub_impl e t q v) as [[w2 out] evs2] end.
  by destruct out.
Qed.

(** C8: [remove(S)] erases the entry of S's endpoint and topic and no other
    entry; when that entry is absent from a store built by the manager the
    store is unchanged, so that a second [remove] in a row changes nothing
    (and [remove], a total function, cannot fail); the topic map of the
    endpoint goes as a whole exactly when the erasure leaves it empty. *)
Theorem remove_erases_exactly_its_entry (S : sub_session) (r : endpoint_map_t) :
  find_session (remove S r) (get_endpoint S) (get_topic S) = None
  ∧ (∀ ep t, (ep, t) ≠ (get_endpoint S, get_topic S) →
       find_session (remove S r) ep t = find_session r ep t)
  ∧ (no_empty_bucket r →
     find_session r (get_endpoint S) (get_topic S) = None → remove S r = r)
  ∧ remove S (remove S r) = remove S r
  ∧ (∀ ep, ep ≠ get_endpoint S → remove S r !! ep = r !! ep)
  ∧ (∀ b, r !! get_endpoint S = Some b →
       remove S r !! get_endpoint S =
         if decide (delete (get_topic S) b = ∅) then None
         else Some (delete (get_topic S) b))
  ∧ (no_empty_bucket r → no_empty_bucket (remove S r)).
Proof.
  split; [apply remove_find_same|].
  split; [apply remove_find_other|].
  split; [apply remove_absent|].
  split; [apply remove_idempotent|].
  split; [intros ep; apply remove_lookup_other|].
  split; [apply remove_lookup_same|apply remove_no_empty_bucket].
Qed.

Lemma no_empty_bucket_singleton ep (b : topics_map_t) :
  b ≠ ∅ → no_empty_bucket {[ ep := b ]}.
Proof.
  intros Hb ep' b' [_ <-]%lookup_singleton_Some. done.
Qed.

(** On two concrete stores: with only [sport] registered at [ep0], removing
    the session of [news] at [ep0] changes nothing; from [three_topics] it
    takes [news] at [ep0] away and leaves [sport] at [ep0] and the topic
    map of [ep1] as they were. *)
Lemma remove_erases_exactly_its_entry_witness :
  remove (running_session true) {[ ep0 := {[ "sport"%string := 2%nat ]} ]}
    = {[ ep0 := {[ "sport"%string := 2%nat ]} ]}
  ∧ find_session (remove (running_session true) three_topics) ep0 "sport"
    = Some 2%nat
  ∧ remove (running_session true) three_topics !! ep1
    = Some {[ "news"%string := 3%nat ]}
  ∧ remove (running_session true) three_topics !! ep0
    = Some {[ "sport"%string := 2%nat ]}
  ∧ no_empty_bucket
      (remove (running_session true) {[ ep0 := {[ "sport"%string := 2%nat ]} ]}).
Proof.
  destruct (remove_erases_exactly_its_entry (running_session true)
              {[ ep0 := {[ "sport"%string := 2%nat ]} ]})
    as (_ & _ & Habsent & _ & _ & _ & Hwf).
  destruct (remove_erases_exactly_its_entry (running_session true) three_topics)
    as (_ & Hother & _ & _ & Hep & Hbucket & _).
  split; [|split; [|split; [|split]]].
  - apply Habsent.
    + apply no_empty_bucket_singleton, map_non_empty_singleton.
    + vm_compute. reflexivity.
  - rewrite (Hother ep0 "sport"%string); [vm_compute; reflexivity|].
    intros Heq. discriminate Heq.
  - rewrite (Hep ep1); [vm_compute; reflexivity|].
    intros Heq. discriminate Heq.
  - etransitivity.
    + apply (Hbucket {[ "news"%string := 1%nat; "sport"%string := 2%nat ]}).
      vm_compute. reflexivity.
    + vm_compute. reflexivity.
  - apply Hwf, no_empty_bucket_singleton, map_non_empty_singleton.
Defined.

(** ** The guard of the completion handlers *)

Lemma not_running_not_alive st :
  running_flag_ (self st) = false → alive st = false.
Proof. unfold alive. intros ->. apply andb_false_r. Qed.

Lemma open_running_alive st :
  socket_is_open (self st) = true → running_flag_ (self st) = true →
  alive st = true.
Proof. unfold alive. by intros -> ->. Qed.

Lemma run_handler_not_alive k error st :
  alive st = false → run_handler k error st = (st, []).
Proof.
  intros Hg.
  destruct k; simpl;
    unfold handle_request_sub, handle_response_sub_head,
      handle_response_sub_body, handle_sub_head, handle_sub_body,
      handle_heartbeat, handle_send_hb;
    by rewrite Hg.
Qed.

Lemma run_completions_not_alive cs st :
  alive st = false → run_completions cs st = (st, []).
Proof.
  intros Hg. induction cs as [|[k error] cs IH]; [done|].
  simpl. by rewrite (run_handler_not_alive k error st Hg), IH.
Qed.

Lemma failed_false error : value error = 0 → failed error = false.
Proof. unfold failed. by intros ->. Qed.

Lemma failed_true error : value error ≠ 0 → failed error = true.
Proof.
  unfold failed. intros Hv. apply negb_true_iff, Z.eqb_neq, Hv.
Qed.

(** C1: [stop] clears the running flag, and a completion handler that runs
    while the flag is clear returns at once: it calls neither the message
    callback nor the error callback, issues nothing and leaves the session
    and the process-wide state as they were.  The same holds for any
    sequence of completions delivered after [stop], and the two
    continuations of the connection call nothing either. *)
Theorem stopped_session_is_silent :
  (∀ s, running_flag_ (stop s) = false)
  ∧ (∀ k error st,
       running_flag_ (self st) = false → run_handler k error st = (st, []))
  ∧ (∀ cs st,
       run_completions cs (with_self (stop (self st)) st)
       = (with_self (stop (self st)) st, []))
  ∧ (∀ sub_topic_name st,
       running_flag_ (self st) = false →
       on_connected sub_topic_name st = (st, [])
       ∧ (on_connect_failed st).2 = []).
Proof.
  split; [done|]. split; [|split].
  - intros k error st Hr. by apply run_handler_not_alive, not_running_not_alive.
  - intros cs st. by apply run_completions_not_alive, not_running_not_alive.
  - intros rpc st Hr. unfold on_connected, request_sub. by rewrite Hr.
Qed.

(** A message body and a read failure that complete after [stop] reach no
    callback. *)
Lemma stopped_session_is_silent_witness :
  run_handler h_sub_body success
    (with_self (stop (running_session true)) (running_state true))
  = (with_self (stop (running_session true)) (running_state true), [])
  ∧ run_handler h_sub_head broken_pipe
      (with_self (stop (running_session true)) (running_state true))
    = (with_self (stop (running_session true)) (running_state true), []).
Proof.
  split.
  - apply (proj1 (proj2 stopped_session_is_silent)). reflexivity.
  - apply (proj1 (proj2 stopped_session_is_silent)). reflexivity.
Defined.

(** ** The heartbeat chain *)

Lemma handle_send_hb_no_async error st :
  List.filter is_async (handle_send_hb error st).2 = [].
Proof.
  unfold handle_send_hb. destruct (negb (alive st)); [done|].
  destruct (failed error); [|done].
  unfold on_error. destruct (on_error_func (proc st)), (error_ (self st)); done.
Qed.

(** C9: when the heartbeat wait completes without error, a session that is
    not running or whose socket is closed writes nothing and does not wait
    again; otherwise it writes one header with length 0 and no body, bound
    to [handle_send_hb], and in the same handler starts the next wait of 15
    seconds.  The completion of the ping, whatever its outcome, issues no
    operation, so the wait started beside it is not affected. *)
Theorem heartbeat_expiry (error : sys_error) (st : state) :
  value error = 0 →
  (socket_is_open (self st) = false ∨ running_flag_ (self st) = false →
   handle_heartbeat error st = (st, []))
  ∧ (socket_is_open (self st) = true → running_flag_ (self st) = true →
     handle_heartbeat error st
     = (with_self (set_send_head head_zero (self st)) st,
        [async_write [buf_head head_zero] h_send_hb; async_wait 15 h_heartbeat]))
  ∧ len head_zero = 0%N
  ∧ (∀ error' st', List.filter is_async (handle_send_hb error' st').2 = []).
Proof.
  intros Hv. split; [|split; [|split]].
  - intros Hg. apply (run_handler_not_alive h_heartbeat error st).
    unfold alive. destruct Hg as [-> | ->]; [done|apply andb_false_r].
  - intros Ho Hr. unfold handle_heartbeat.
    by rewrite (open_running_alive st Ho Hr), (failed_false error Hv).
  - done.
  - intros error' st'. apply handle_send_hb_no_async.
Qed.

Lemma heartbeat_expiry_witness :
  handle_heartbeat success (running_state true)
  = (with_self (set_send_head head_zero (running_session true)) (running_state true),
     [async_write [buf_head head_zero] h_send_hb; async_wait 15 h_heartbeat])
  ∧ handle_heartbeat success
      (with_self (stop (running_session true)) (running_state true))
    = (with_self (stop (running_session true)) (running_state true), []).
Proof.
  split.
  - apply (proj1 (proj2 (heartbeat_expiry success (running_state true) eq_refl)));
      reflexivity.
  - apply (proj1 (heartbeat_expiry success
             (with_self (stop (running_session true)) (running_state true)) eq_refl)).
    right. reflexivity.
Defined.

(** C10: when the heartbeat wait itself completes with an error while the
    socket is open and the session is running, the handler does nothing: no
    ping, no new wait, no error callback, no failure hook.  The state is
    untouched, so the running flag is still set, and the receive chain goes
    on as it would have. *)
Theorem heartbeat_wait_error_is_silent (error : sys_error) (st : state) :
  value error ≠ 0 →
  socket_is_open (self st) = true →
  running_flag_ (self st) = true →
  handle_heartbeat error st = (st, [])
  ∧ running_flag_ (self (handle_heartbeat error st).1) = true
  ∧ topics_ (proc (handle_heartbeat error st).1) = topics_ (proc st)
  ∧ (∀ input op,
       receive_chain input op (handle_heartbeat error st).1
       = receive_chain input op st).
Proof.
  intros Hv Ho Hr.
  assert (handle_heartbeat error st = (st, [])) as ->.
  { unfold handle_heartbeat.
    by rewrite (open_running_alive st Ho Hr), (failed_true error Hv). }
  done.
Qed.

Lemma heartbeat_wait_error_is_silent_witness :
  handle_heartbeat operation_aborted (running_state true)
  = (running_state true, []).
Proof.
  apply (heartbeat_wait_error_is_silent operation_aborted (running_state true)).
  - discriminate.
  - reflexivity.
  - reflexivity.
Defined.

(** ** The receive loop *)

Lemma receive_chain_message h b rest st :
  alive st = true → (0 < len h)%N → length b = N.to_nat (len h) →
  receive_chain (frame h b ++ rest) (Some (read_head h_sub_head)) st
  = let st' := with_self (set_response b (set_recv_head h (self st))) st in
    let '(st'', acts, op) :=
      receive_chain rest (Some (read_head h_sub_head)) st' in
    (st'',
     [async_read_body (length b) h_sub_body]
       ++ ((if function_ (self st) then [call_function b] else [])
             ++ [async_read_head h_sub_head]) ++ acts,
     op).
Proof.
  intros Hg Hlen Hb. unfold frame, alive in *.
  apply N.ltb_lt in Hlen as Hlt. rewrite Hlt. simpl.
  unfold handle_sub_head, alive. simpl. rewrite Hg, Hlt. simpl.
  rewrite <- Hb, decide_True by done. simpl.
  unfold handle_sub_body, alive. simpl. rewrite Hg. simpl.
  destruct (function_ (self st)); simpl;
    by destruct (receive_chain rest _ _) as [[st'' acts] op].
Qed.

Lemma receive_chain_heartbeat_ack h b rest st :
  alive st = true → len h = 0%N →
  receive_chain (frame h b ++ rest) (Some (read_head h_sub_head)) st
  = let st' := with_self (set_recv_head h (self st)) st in
    let '(st'', acts, op) :=
      receive_chain rest (Some (read_head h_sub_head)) st' in
    (st'', [async_read_head h_sub_head] ++ acts, op).
Proof.
  intros Hg Hlen. unfold frame, alive in *. rewrite Hlen. simpl.
  unfold handle_sub_head, alive. simpl. rewrite Hg, Hlen. simpl.
  by destruct (receive_chain rest _ _) as [[st'' acts] op].
Qed.

(** Whatever the frames, the receive loop hands the message bodies to the
    callback in arrival order, reads a header again after every frame and
    never takes the error path. *)
Lemma receive_loop_delivers fs : ∀ st,
  alive st = true → function_ (self st) = true → Forall frame_ok fs →
  let r := receive_chain (frames fs) (Some (read_head h_sub_head)) st in
  List.filter is_call_function r.1.2 = call_function <$> messages fs
  ∧ List.filter is_call_error r.1.2 = []
  ∧ length (List.filter is_read_head r.1.2) = length fs
  ∧ r.2 = Some (read_head h_sub_head)
  ∧ alive r.1.1 = true
  ∧ proc r.1.1 = proc st.
Proof.
  induction fs as [|[h b] fs IH]; intros st Hg Hf Hok; [done|].
  apply Forall_cons in Hok as [Hb Hok]. unfold frame_ok in Hb. simpl in Hb.
  change (frames ((h, b) :: fs)) with (frame h b ++ frames fs).
  simpl messages. destruct (0 <? len h)%N eqn:Hlen.
  - apply N.ltb_lt in Hlen.
    rewrite (receive_chain_message h b (frames fs) st Hg Hlen Hb), Hf.
    cbv zeta.
    specialize (IH (with_self (set_response b (set_recv_head h (self st))) st)
                  Hg Hf Hok).
    destruct (receive_chain (frames fs) _ _) as [[st'' acts] op].
    simpl in *. destruct IH as (-> & -> & -> & -> & -> & ->). done.
  - apply N.ltb_ge in Hlen. assert (len h = 0%N) as Hz by lia.
    rewrite (receive_chain_heartbeat_ack h b (frames fs) st Hg Hz).
    cbv zeta.
    specialize (IH (with_self (set_recv_head h (self st)) st) Hg Hf Hok).
    destruct (receive_chain (frames fs) _ _) as [[st'' acts] op].
    simpl in *. destruct IH as (-> & -> & -> & -> & -> & ->). done.
Qed.

(** C6: a running session with a message callback that receives, one after
    the other and without transport error, frames of length 37, 0 and 12
    calls the message callback exactly twice, with the 37 bytes first and
    the 12 bytes second; the frame of length 0 reaches no callback; a header
    read bound to [handle_sub_head] is issued after each of the three frames
    and is the read outstanding at the end. *)
Theorem three_frames_two_messages
    (st : state) (h1 h2 h3 : head_t) (b1 b3 : bytes) :
  socket_is_open (self st) = true →
  running_flag_ (self st) = true →
  function_ (self st) = true →
  len h1 = 37%N → length b1 = 37%nat →
  len h2 = 0%N →
  len h3 = 12%N → length b3 = 12%nat →
  let r := receive_chain (frame h1 b1 ++ frame h2 [] ++ frame h3 b3)
             (Some (read_head h_sub_head)) st in
  r.1.2 = [async_read_body 37 h_sub_body; call_function b1;
           async_read_head h_sub_head;
           async_read_head h_sub_head;
           async_read_body 12 h_sub_body; call_function b3;
           async_read_head h_sub_head]
  ∧ List.filter is_call_function r.1.2 = [call_function b1; call_function b3]
  ∧ List.filter is_call_error r.1.2 = []
  ∧ r.2 = Some (read_head h_sub_head).
Proof.
  intros Ho Hr Hf H1 Hb1 H2 H3 Hb3.
  pose proof (open_running_alive st Ho Hr) as Hg.
  rewrite <- (app_nil_r (frame h3 b3)).
  rewrite (receive_chain_message h1 b1 _ st Hg) by lia.
  cbv zeta.
  rewrite receive_chain_heartbeat_ack; [|exact Hg|exact H2].
  cbv zeta.
  rewrite receive_chain_message; [|exact Hg|lia|lia].
  simpl. rewrite Hf, Hb1, Hb3. done.
Qed.

Lemma three_frames_two_messages_witness :
  List.filter is_call_function
    (receive_chain
       (frame (head_of_len 37) body37 ++ frame (head_of_len 0) []
          ++ frame (head_of_len 12) body12)
       (Some (read_head h_sub_head)) (running_state true)).1.2
  = [call_function body37; call_function body12].
Proof.
  apply (three_frames_two_messages (running_state true)
           (head_of_len 37) (head_of_len 0) (head_of_len 12) body37 body12);
    reflexivity.
Defined.

(** ** The error path *)

Lemma remove_same_key s1 s2 r :
  get_endpoint s1 = get_endpoint s2 → get_topic s1 = get_topic s2 →
  remove s1 r = remove s2 r.
Proof. intros He Ht. unfold remove. by rewrite He, Ht. Qed.

Lemma on_error_with_hook e st :
  on_error_func (proc st) = Some remove →
  on_error e st
  = (with_topics (remove (self st) (topics_ (proc st))) st,
     (if error_ (self st) then [call_error e] else [])
       ++ [call_on_error_func (get_endpoint (self st)) (get_topic (self st))]).
Proof. intros Hh. unfold on_error. by rewrite Hh. Qed.

(** The error path never stores to the session. *)
Lemma on_error_self e st : self (on_error e st).1 = self st.
Proof. unfold on_error. by destruct (on_error_func (proc st)). Qed.

(** C7: a handshake reply whose header has a result code other than OK and
    a length above zero, followed by its body B, makes the session read B,
    turn it into an exception with the deserialization hook, call the error
    callback (when the session has one) with exactly that exception and
    then call the failure hook, after which the registry has no entry for
    the session; no further read is issued. *)
Theorem rejected_handshake_reports_exception
    (unpack_exception : bytes → exception) (h : head_t) (B : bytes) (st : state) :
  socket_is_open (self st) = true →
  running_flag_ (self st) = true →
  on_error_func (proc st) = Some remove →
  on_deserialize_exception (proc st) = Some unpack_exception →
  code h ≠ result_code_OK →
  (0 < len h)%N →
  length B = N.to_nat (len h) →
  let r := receive_chain (frame h B) (Some (read_head h_response_sub_head)) st in
  r.1.2 = [async_read_body (length B) h_response_sub_body]
            ++ (if error_ (self st) then [call_error (unpack_exception B)] else [])
            ++ [call_on_error_func (get_endpoint (self st)) (get_topic (self st))]
  ∧ topics_ (proc r.1.1) = remove (self st) (topics_ (proc st))
  ∧ find_session (topics_ (proc r.1.1)) (get_endpoint (self st)) (get_topic (self st))
    = None
  ∧ r.2 = None.
Proof.
  intros Ho Hr Hh Hd Hc Hlen Hb.
  pose proof (open_running_alive st Ho Hr) as Hg. unfold alive in Hg.
  apply N.ltb_lt in Hlen as Hlt.
  assert ((result_code_OK =? code h) = false) as Hne
    by (apply Z.eqb_neq; congruence).
  unfold frame. rewrite Hlt. simpl.
  unfold handle_response_sub_head, alive. simpl. rewrite Hg, Hlt. simpl.
  rewrite <- Hb, decide_True by done. simpl.
  unfold handle_response_sub_body, alive. fields. rewrite Hg, Hne. simpl.
  unfold on_error_response. simpl. rewrite Hd.
  rewrite on_error_with_hook by done. simpl.
  assert (∀ l : list action, issued_read
            ((if error_ (self st) then [call_error (unpack_exception B)] else [])
               ++ l) = issued_read l) as Hi
    by (intros l; by destruct (error_ (self st))).
  rewrite Hi. simpl.
  match goal with |- context [remove (set_response B ?s) _] =>
    rewrite (remove_same_key (set_response B s) (self st) _ eq_refl eq_refl)
  end.
  split; [by rewrite app_nil_r|]. split; [done|].
  split; [apply remove_find_same|done].
Qed.

(** The reply "topic unknown" with a non-zero result code, sent to the
    session of [news] at [ep0]. *)
Lemma rejected_handshake_reports_exception_witness :
  List.filter is_call_error
    (receive_chain (frame denied_head denied_body)
       (Some (read_head h_response_sub_head)) (running_state true)).1.2
  = [call_error {| ex_code := SERVER_REJECTED; ex_message := "topic unknown" |}]
  ∧ find_session
      (topics_ (proc (receive_chain (frame denied_head denied_body)
         (Some (read_head h_response_sub_head)) (running_state true)).1.1))
      ep0 "news" = None.
Proof.
  pose proof (rejected_handshake_reports_exception toy_unpack denied_head
                denied_body (running_state true)
                eq_refl eq_refl eq_refl eq_refl) as H.
  specialize (H ltac:(discriminate) eq_refl eq_refl).
  destruct H as (H & _ & Hgone & _). split.
  - rewrite H. reflexivity.
  - exact Hgone.
Defined.

(** C4, as stated, fails for a connect failure: the continuation that
    [start] hands to the connection for that case only clears the running
    flag.  Although the session has an error callback and the manager's
    hook is installed, nothing is called and the session stays in the
    store. *)
Lemma connect_failure_is_not_reported :
  let r := on_connect_failed (running_state true) in
  error_ (self (running_state true)) = true
  ∧ on_error_func (proc (running_state true)) = Some remove
  ∧ r.2 = []
  ∧ running_flag_ (self r.1) = false
  ∧ find_session (topics_ (proc r.1)) ep0 "news" = Some 1%nat.
Proof. vm_compute. done. Qed.

(** C4, amended: a write or read failure delivered to a completion handler
    of the handshake, of the receive loop or of the ping write, while the
    socket is open and the session is running, makes the session build a
    BADCONNECTION exception with the system error text, call the error
    callback with it when there is one, and call the failure hook; the hook
    installed by the manager erases the session's entry from the store.  A
    connect failure only runs [stop]. *)
Theorem io_failure_reported (k : handler) (error : sys_error) (st : state) :
  k ≠ h_heartbeat →
  value error ≠ 0 →
  socket_is_open (self st) = true →
  running_flag_ (self st) = true →
  on_error_func (proc st) = Some remove →
  run_handler k error st
  = (with_topics (remove (self st) (topics_ (proc st))) st,
     (if error_ (self st)
      then [call_error {| ex_code := BADCONNECTION; ex_message := message error |}]
      else [])
       ++ [call_on_error_func (get_endpoint (self st)) (get_topic (self st))])
  ∧ find_session (topics_ (proc (run_handler k error st).1))
      (get_endpoint (self st)) (get_topic (self st)) = None
  ∧ on_connect_failed st = (with_self (stop (self st)) st, []).
Proof.
  intros Hk Hv Ho Hr Hh.
  pose proof (open_running_alive st Ho Hr) as Hg.
  pose proof (failed_true error Hv) as Hf.
  assert (run_handler k error st = on_error (bad_connection error) st) as ->.
  { destruct k; simpl;
      unfold handle_request_sub, handle_response_sub_head,
        handle_response_sub_body, handle_sub_head, handle_sub_body,
        handle_send_hb;
      rewrite ?Hg, ?Hf; simpl; done. }
  rewrite on_error_with_hook by done.
  split; [done|]. split; [apply remove_find_same|done].
Qed.

Lemma io_failure_reported_witness :
  run_handler h_sub_head broken_pipe (running_state true)
  = (with_topics (remove (running_session true) one_topic) (running_state true),
     [call_error {| ex_code := BADCONNECTION; ex_message := "Broken pipe" |};
      call_on_error_func ep0 "news"]).
Proof.
  apply (io_failure_reported h_sub_head broken_pipe (running_state true)).
  - discriminate.
  - discriminate.
  - reflexivity.
  - reflexivity.
  - reflexivity.
Defined.

(** C5 does not hold of the code: the error path calls the error callback
    and the failure hook but never [stop].  After a failed header read in
    the steady state the running flag is still set, and the heartbeat wait
    that completes next writes a ping and waits again. *)
Theorem error_path_keeps_running :
  let r := handle_sub_head broken_pipe (running_state true) in
  r.2 = [call_error {| ex_code := BADCONNECTION; ex_message := "Broken pipe" |};
         call_on_error_func ep0 "news"]
  ∧ running_flag_ (self r.1) = true
  ∧ (handle_heartbeat success r.1).2
    = [async_write [buf_head head_zero] h_send_hb; async_wait 15 h_heartbeat].
Proof. vm_compute. done. Qed.

(** C2 does not hold of the code: on a handshake acknowledgement with
    result OK and length 0 [handle_response_sub_head] issues nothing.  No
    heartbeat wait is started, no header read is outstanding afterwards, and
    the session stays as it is, still running. *)
Theorem ok_ack_without_body_stalls :
  let r := receive_chain (frame ok_empty_head [])
             (Some (read_head h_response_sub_head)) (running_state true) in
  r.1.2 = []
  ∧ r.2 = None
  ∧ running_flag_ (self r.1.1) = true
  ∧ self r.1.1 = set_recv_head ok_empty_head (running_session true).
Proof. vm_compute. done. Qed.

(** The same for every running session: with a zero length the handler
    returns without an operation, whatever the result code. *)
Lemma handle_response_sub_head_zero_length st :
  alive st = true → len (recv_head_ (self st)) = 0%N →
  handle_response_sub_head success st = (st, []).
Proof.
  intros Hg Hz. unfold handle_response_sub_head. by rewrite Hg, Hz.
Qed.

(** ** Subscribing twice *)

(** C3, as stated, fails on a store that holds session 1 for [news] at
    [ep0]: the second [sub] throws an exception whose kind is UNKNOWN, not a
    kind of its own, and it has built a session object before the store is
    looked up. *)
Lemma duplicate_sub_is_unknown_error :
  let r := sub ep0 news true one_session_world in
  find_session (topics_ (manager one_session_world)) ep0 (name news) = Some 1%nat
  ∧ r.1.2 = thrown {| ex_code := UNKNOWN; ex_message := "Sub topic already existed!" |}
  ∧ (∀ m, r.1.2 ≠ thrown {| ex_code := ALREADY_SUBSCRIBED; ex_message := m |})
  ∧ List.filter is_make_shared r.2 ≠ [].
Proof.
  vm_compute. split; [done|]. split; [done|]. split; [|done].
  intros m Hm. discriminate Hm.
Qed.

(** C3, amended: when a session is registered for the pair, [sub] for the
    same pair throws the exception of kind UNKNOWN with the text "Sub topic
    already existed!".  The session object it built beforehand is never
    started and never stored, and is released as the exception leaves
    [sub]; the objects and the store are as before the call, so the store
    still holds the first session, and only that one, for the pair. *)
Theorem duplicate_sub_throws (ep : endpoint) (protocol : protocol_t)
    (error : bool) (w : world) (first : sub_session_ptr) :
  find_session (topics_ (manager w)) ep (name protocol) = Some first →
  let r := sub ep protocol error w in
  let p := fresh (dom (heap w)) in
  r.1.2 = thrown {| ex_code := UNKNOWN; ex_message := "Sub topic already existed!" |}
  ∧ r.2 = [make_shared p; released p]
  ∧ List.filter is_session_action r.2 = []
  ∧ r.1.1 = w
  ∧ find_session (topics_ (manager r.1.1)) ep (name protocol) = Some first.
Proof.
  intros Hfind. destruct w as [hp mg]. unfold find_session in Hfind.
  simpl in Hfind.
  destruct (topics_ mg !! ep) as [b|] eqn:Hb; [|done]. simpl in Hfind.
  assert (hp !! fresh (dom hp) = None) as Hfresh
    by apply not_elem_of_dom, is_fresh.
  unfold sub, make_sub_session, sub_impl. simpl. rewrite Hb, Hfind. simpl.
  rewrite (delete_insert_id hp _ _ Hfresh).
  repeat split. unfold find_session. by rewrite Hb.
Qed.

Lemma duplicate_sub_throws_witness :
  (sub ep0 news true one_session_world).1.1 = one_session_world.
Proof.
  apply (duplicate_sub_throws ep0 news true one_session_world 1%nat).
  vm_compute. reflexivity.
Defined.

(** * Further properties *)

(** ** The steady state in general *)

(** X1: whatever frames arrive in the steady state, a running session with
    a message callback hands the bodies of the frames with a non-zero
    length to the callback, each once and in arrival order; it never calls
    the error callback, reads a header again after every frame, stays
    running and leaves the store alone. *)
Theorem receive_loop_in_arrival_order (fs : list (head_t * bytes)) (st : state) :
  socket_is_open (self st) = true →
  running_flag_ (self st) = true →
  function_ (self st) = true →
  Forall frame_ok fs →
  let r := receive_chain (frames fs) (Some (read_head h_sub_head)) st in
  List.filter is_call_function r.1.2 = call_function <$> messages fs
  ∧ List.filter is_call_error r.1.2 = []
  ∧ length (List.filter is_read_head r.1.2) = length fs
  ∧ r.2 = Some (read_head h_sub_head)
  ∧ running_flag_ (self r.1.1) = true
  ∧ topics_ (proc r.1.1) = topics_ (proc st).
Proof.
  intros Ho Hr Hf Hok.
  destruct (receive_loop_delivers fs st (open_running_alive st Ho Hr) Hf Hok)
    as (H1 & H2 & H3 & H4 & H5 & H6).
  cbv zeta. rewrite H1, H2, H3, H4, H6.
  unfold alive in H5. apply andb_true_iff in H5 as [_ H5]. done.
Qed.

Lemma receive_loop_in_arrival_order_witness :
  List.filter is_call_function
    (receive_chain
       (frames [(head_of_len 0, []); (head_of_len 12, body12);
                (head_of_len 37, body37); (head_of_len 0, [])])
       (Some (read_head h_sub_head)) (running_state false)).1.2
  = [call_function body12; call_function body37].
Proof.
  apply (receive_loop_in_arrival_order
           [(head_of_len 0, []); (head_of_len 12, body12);
            (head_of_len 37, body37); (head_of_len 0, [])]
           (running_state false)); try reflexivity.
  repeat constructor.
Defined.

(** ** The handshake *)

Lemma length_list_byte_of_string s :
  length (String.list_byte_of_string s) = String.length s.
Proof.
  unfold String.list_byte_of_string. rewrite length_map.
  induction s as [|a s IH]; simpl; congruence.
Qed.

(** X2: once connected, a running session writes one request bound to
    [handle_request_sub]: a header, the procedure name with its
    terminating zero byte, and the packed topic.  The header's length is
    the size of name, terminator and topic reduced modulo 2^32, which is
    the number of bytes that follow the header whenever that number is below
    2^32.  When the write completes without error on an open socket, the
    session issues exactly the read of the reply header. *)
Theorem handshake_request_is_framed (sub_topic_name : string) (st : state) :
  running_flag_ (self st) = true →
  let r := on_connected sub_topic_name st in
  (∃ hd,
     r.2 = [async_write
              [buf_head hd;
               buf_bytes (String.list_byte_of_string sub_topic_name ++ [x00]);
               buf_bytes (topic_ (self st))] h_request_sub]
     ∧ send_head_ (self r.1) = hd
     ∧ code hd = code (send_head_ (self st))
     ∧ len hd = (N.of_nat (String.length sub_topic_name + length (topic_ (self st)) + 1)
                 mod 2 ^ 32)%N
     ∧ ((N.of_nat (String.length sub_topic_name + length (topic_ (self st)) + 1)
         < 2 ^ 32)%N →
        ∀ bufs k, r.2 = [async_write bufs k] →
          N.to_nat (len hd) = payload_size bufs))
  ∧ (socket_is_open (self st) = true →
     handle_request_sub success r.1 = (r.1, [async_read_head h_response_sub_head])).
Proof.
  intros Hr. unfold on_connected, request_sub, request_sub_message.
  rewrite Hr. cbv zeta. fields. split.
  - eexists. split; [reflexivity|]. split; [reflexivity|]. split; [reflexivity|].
    split.
    + cbn [len set_len]. f_equal. lia.
    + intros Hlt bufs k Heq. injection Heq as <- <-.
      cbn [len set_len payload_size].
      rewrite length_app, length_list_byte_of_string. cbn [length].
      replace (N.of_nat (String.length sub_topic_name)
               + N.of_nat (length (topic_ (self st))) + 1)%N
        with (N.of_nat (String.length sub_topic_name
                        + length (topic_ (self st)) + 1)) by lia.
      rewrite N.mod_small by exact Hlt. lia.
  - intros Ho. unfold handle_request_sub, alive. fields. by rewrite Ho, Hr.
Qed.

Lemma handshake_request_is_framed_witness :
  handle_request_sub success (on_connected "sub_topic" (running_state true)).1
  = ((on_connected "sub_topic" (running_state true)).1,
     [async_read_head h_response_sub_head])
  ∧ len (send_head_ (self (on_connected "sub_topic" (running_state true)).1))
    = 12%N.
Proof.
  destruct (handshake_request_is_framed "sub_topic" (running_state true) eq_refl)
    as [(hd & _ & <- & _ & Hlen & _) Hnext].
  split.
  - apply Hnext. reflexivity.
  - rewrite Hlen. reflexivity.
Defined.

Lemma receive_chain_accepted h B rest st :
  alive st = true → code h = result_code_OK →
  (0 < len h)%N → length B = N.to_nat (len h) →
  receive_chain (frame h B ++ rest) (Some (read_head h_response_sub_head)) st
  = let st' := with_self (set_response B (set_recv_head h (self st))) st in
    let '(st'', acts, op) :=
      receive_chain rest (Some (read_head h_sub_head)) st' in
    (st'',
     [async_read_body (length B) h_response_sub_body;
      async_wait 15 h_heartbeat; async_read_head h_sub_head] ++ acts,
     op).
Proof.
  intros Hg Hc Hlen Hb. unfold frame, alive in *.
  apply N.ltb_lt in Hlen as Hlt. rewrite Hlt. simpl.
  unfold handle_response_sub_head, alive. simpl. rewrite Hg, Hlt. simpl.
  rewrite <- Hb, decide_True by done. simpl.
  unfold handle_response_sub_body, alive. fields. rewrite Hg, Hc. simpl.
  by destruct (receive_chain rest _ _) as [[st'' acts] op].
Qed.

(** In the steady state the receive chain does nothing but read and hand
    messages over. *)
Lemma receive_loop_reads_and_delivers fs : ∀ st,
  alive st = true → Forall frame_ok fs →
  Forall (λ a, is_async_read a || is_call_function a = true)
    (receive_chain (frames fs) (Some (read_head h_sub_head)) st).1.2.
Proof.
  induction fs as [|[h b] fs IH]; intros st Hg Hok; [constructor|].
  apply Forall_cons in Hok as [Hb Hok]. unfold frame_ok in Hb. simpl in Hb.
  change (frames ((h, b) :: fs)) with (frame h b ++ frames fs).
  destruct (0 <? len h)%N eqn:Hlen.
  - apply N.ltb_lt in Hlen.
    rewrite (receive_chain_message h b (frames fs) st Hg Hlen Hb). cbv zeta.
    specialize (IH (with_self (set_response b (set_recv_head h (self st))) st)
                  Hg Hok).
    destruct (receive_chain (frames fs) _ _) as [[st'' acts] op]. simpl in *.
    constructor; [done|]. destruct (function_ (self st)); simpl;
      repeat (constructor; [done|]); done.
  - apply N.ltb_ge in Hlen. assert (len h = 0%N) as Hz by lia.
    rewrite (receive_chain_heartbeat_ack h b (frames fs) st Hg Hz). cbv zeta.
    specialize (IH (with_self (set_recv_head h (self st)) st) Hg Hok).
    destruct (receive_chain (frames fs) _ _) as [[st'' acts] op]. simpl in *.
    by constructor.
Qed.

Lemma filter_wait_reads_and_delivers (acts : list action) :
  Forall (λ a, is_async_read a || is_call_function a = true) acts →
  List.filter is_async_wait acts = [].
Proof.
  induction 1 as [|a acts Ha _ IH]; [done|].
  simpl. by destruct a.
Qed.

(** X3: a handshake reply with result OK and a body makes a running
    session read the body, start the heartbeat wait of 15 seconds, once,
    and enter the receive loop.  The reply body is not handed to the message
    callback; the frames that follow are, in arrival order, and the error
    callback is not called. *)
Theorem accepted_handshake_enters_steady_state
    (h : head_t) (B : bytes) (fs : list (head_t * bytes)) (st : state) :
  socket_is_open (self st) = true →
  running_flag_ (self st) = true →
  function_ (self st) = true →
  code h = result_code_OK →
  (0 < len h)%N →
  length B = N.to_nat (len h) →
  Forall frame_ok fs →
  let r := receive_chain (frame h B ++ frames fs)
             (Some (read_head h_response_sub_head)) st in
  take 3 r.1.2 = [async_read_body (length B) h_response_sub_body;
                  async_wait 15 h_heartbeat; async_read_head h_sub_head]
  ∧ List.filter is_async_wait r.1.2 = [async_wait 15 h_heartbeat]
  ∧ List.filter is_call_function r.1.2 = call_function <$> messages fs
  ∧ List.filter is_call_error r.1.2 = []
  ∧ r.2 = Some (read_head h_sub_head)
  ∧ topics_ (proc r.1.1) = topics_ (proc st).
Proof.
  intros Ho Hr Hf Hc Hlen Hb Hok.
  pose proof (open_running_alive st Ho Hr) as Hg.
  rewrite (receive_chain_accepted h B (frames fs) st Hg Hc Hlen Hb). cbv zeta.
  pose proof (receive_loop_delivers fs
                (with_self (set_response B (set_recv_head h (self st))) st)
                Hg Hf Hok) as (H1 & H2 & _ & H4 & _ & H6).
  pose proof (receive_loop_reads_and_delivers fs
                (with_self (set_response B (set_recv_head h (self st))) st)
                Hg Hok) as Hall.
  apply filter_wait_reads_and_delivers in Hall.
  destruct (receive_chain (frames fs) _ _) as [[st'' acts] op].
  simpl in *. rewrite H1, H2, H4, H6, Hall. done.
Qed.

Lemma accepted_handshake_enters_steady_state_witness :
  List.filter is_call_function
    (receive_chain
       (frame (head_of_len 14) denied_body
          ++ frames [(head_of_len 12, body12); (head_of_len 0, [])])
       (Some (read_head h_response_sub_head)) (running_state true)).1.2
  = [call_function body12].
Proof.
  apply (accepted_handshake_enters_steady_state (head_of_len 14) denied_body
           [(head_of_len 12, body12); (head_of_len 0, [])] (running_state true));
    try reflexivity.
  repeat constructor.
Defined.

(** ** What a handler may change *)

Lemma on_error_cases e st :
  self (on_error e st).1 = self st
  ∧ on_error_func (proc (on_error e st).1) = on_error_func (proc st)
  ∧ on_deserialize_exception (proc (on_error e st).1)
    = on_deserialize_exception (proc st)
  ∧ topics_ (proc (on_error e st).1)
    = match on_error_func (proc st) with
      | Some f => f (self st) (topics_ (proc st))
      | None => topics_ (proc st)
      end.
Proof.
  unfold on_error. destruct (on_error_func (proc st)) eqn:Hh; simpl; done.
Qed.

(** A handler either leaves the state, or stores to the receive buffer or
    the send header only, or ends in [on_error]. *)
Lemma run_handler_cases k error st :
  (proc (run_handler k error st).1 = proc st
   ∧ (self (run_handler k error st).1 = self st
      ∨ (∃ r, self (run_handler k error st).1 = set_response r (self st))
      ∨ self (run_handler k error st).1 = set_send_head head_zero (self st)))
  ∨ (∃ e, (run_handler k error st).1 = (on_error e st).1).
Proof.
  destruct k; simpl;
    unfold handle_request_sub, handle_response_sub_head,
      handle_response_sub_body, handle_sub_head, handle_sub_body,
      handle_heartbeat, handle_send_hb, on_error_response;
    destruct (alive st); simpl;
    try destruct (failed error); simpl;
    repeat match goal with
           | |- context [if ?b then _ else _] => destruct b; simpl
           | |- context [match ?o with Some _ => _ | None => _ end] =>
               destruct o; simpl
           end;
    first [ left; split; [reflexivity|]; left; reflexivity
          | left; split; [reflexivity|]; right; left; eexists; reflexivity
          | left; split; [reflexivity|]; right; right; reflexivity
          | right; eexists; reflexivity ].
Qed.

Lemma handlers_keep_identity_aux k error st :
  get_endpoint (self (run_handler k error st).1) = get_endpoint (self st)
  ∧ get_topic (self (run_handler k error st).1) = get_topic (self st)
  ∧ on_error_func (proc (run_handler k error st).1) = on_error_func (proc st).
Proof.
  destruct (run_handler_cases k error st) as [[Hp [Hs|[[r Hs]|Hs]]]|[e He]].
  - by rewrite Hp, Hs.
  - by rewrite Hp, Hs.
  - by rewrite Hp, Hs.
  - rewrite He. destruct (on_error_cases e st) as (-> & -> & _). done.
Qed.

(** X4: no completion handler, whatever the completion and the state,
    stores to the running flag, to the socket, to the endpoint, the topic
    name or the packed topic, or changes which callbacks the session has or
    which hooks are installed: a handler neither stops nor restarts a
    session and never changes the key it is registered under. *)
Theorem handlers_keep_identity (k : handler) (error : sys_error) (st : state) :
  let st' := (run_handler k error st).1 in
  running_flag_ (self st') = running_flag_ (self st)
  ∧ socket_is_open (self st') = socket_is_open (self st)
  ∧ get_endpoint (self st') = get_endpoint (self st)
  ∧ get_topic (self st') = get_topic (self st)
  ∧ topic_ (self st') = topic_ (self st)
  ∧ function_ (self st') = function_ (self st)
  ∧ error_ (self st') = error_ (self st)
  ∧ on_error_func (proc st') = on_error_func (proc st)
  ∧ on_deserialize_exception (proc st') = on_deserialize_exception (proc st).
Proof.
  cbv zeta.
  destruct (run_handler_cases k error st) as [[Hp [Hs|[[r Hs]|Hs]]]|[e He]].
  - by rewrite Hp, Hs.
  - by rewrite Hp, Hs.
  - by rewrite Hp, Hs.
  - rewrite He. destruct (on_error_cases e st) as (-> & -> & -> & _). done.
Qed.

Lemma run_handler_topics k error st :
  on_error_func (proc st) = Some remove ∨ on_error_func (proc st) = None →
  topics_ (proc (run_handler k error st).1) = topics_ (proc st)
  ∨ topics_ (proc (run_handler k error st).1) = remove (self st) (topics_ (proc st)).
Proof.
  intros Hh.
  destruct (run_handler_cases k error st) as [[Hp _]|[e He]].
  - left. by rewrite Hp.
  - rewrite He. destruct (on_error_cases e st) as (_ & _ & _ & ->).
    destruct Hh as [-> | ->]; auto.
Qed.

(** X5: with the manager's hook installed (or none), a completion handler
    of one session changes the store at most by erasing the entry of that
    session's own endpoint and topic: every other entry, at the same or at
    another endpoint, is found as before, and nothing is ever added. *)
Theorem handlers_touch_only_own_entry (k : handler) (error : sys_error) (st : state) :
  on_error_func (proc st) = Some remove ∨ on_error_func (proc st) = None →
  let t' := topics_ (proc (run_handler k error st).1) in
  (∀ ep t, (ep, t) ≠ (get_endpoint (self st), get_topic (self st)) →
     find_session t' ep t = find_session (topics_ (proc st)) ep t)
  ∧ (∀ ep t p, find_session t' ep t = Some p →
       find_session (topics_ (proc st)) ep t = Some p).
Proof.
  intros Hh. cbv zeta.
  destruct (run_handler_topics k error st Hh) as [-> | ->]; [done|].
  split.
  - intros ep t Hne. by apply remove_find_other.
  - intros ep t p Hp.
    destruct (decide ((ep, t) = (get_endpoint (self st), get_topic (self st))))
      as [[= -> ->]|Hne].
    + by rewrite remove_find_same in Hp.
    + by rewrite remove_find_other in Hp.
Qed.

Lemma handlers_touch_only_own_entry_witness :
  find_session
    (topics_ (proc (run_handler h_sub_body broken_pipe
       {| self := running_session true; proc := process_with three_topics |}).1))
    ep0 "sport"
  = Some 2%nat.
Proof.
  rewrite (proj1 (handlers_touch_only_own_entry h_sub_body broken_pipe
             {| self := running_session true; proc := process_with three_topics |}
             (or_introl eq_refl)) ep0 "sport"%string).
  - vm_compute. reflexivity.
  - intros Heq. discriminate Heq.
Defined.

(** ** Subscribing *)

Lemma find_session_insert_same (r : endpoint_map_t) ep t p (b : topics_map_t) :
  find_session (<[ep := <[t := p]> b]> r) ep t = Some p.
Proof.
  unfold find_session. rewrite lookup_insert_eq. simpl. apply lookup_insert_eq.
Qed.

Lemma find_session_insert_other (r : endpoint_map_t) ep t p ep' t' :
  (ep', t') ≠ (ep, t) →
  find_session (<[ep := <[t := p]> (default ∅ (r !! ep))]> r) ep' t'
  = find_session r ep' t'.
Proof.
  intros Hne. unfold find_session.
  destruct (decide (ep' = ep)) as [->|Hep].
  - assert (t ≠ t') as Ht by congruence.
    rewrite lookup_insert_eq. simpl. rewrite lookup_insert_ne by done.
    by destruct (r !! ep).
  - by rewrite lookup_insert_ne.
Qed.

(** Both storing branches of [sub_impl] put the pointer into the topic map
    of the endpoint, an empty one when the endpoint is new. *)
Lemma sub_impl_stores ep t p s w :
  find_session (topics_ (manager w)) ep t = None →
  heap w !! p = Some s →
  sub_impl ep t p w
  = (set_heap (<[p := set_running_flag true s]> (heap w))
       (set_topics (<[ep := <[t := p]> (default ∅ (topics_ (manager w) !! ep))]>
                      (topics_ (manager w))) w),
     returned, [session_action p connection_start]).
Proof.
  intros Hfind Hp. unfold sub_impl, find_session in *.
  destruct (topics_ (manager w) !! ep) as [b|] eqn:Hb; simpl in *.
  - rewrite Hfind. unfold start_session. simpl. by rewrite Hp.
  - unfold start_session. simpl. by rewrite Hp.
Qed.

Lemma sub_stores ep protocol error w :
  find_session (topics_ (manager w)) ep (name protocol) = None →
  sub ep protocol error w
  = ({| heap := <[fresh (dom (heap w)) :=
                    set_running_flag true
                      (make_session ep (name protocol) (pack_topic protocol)
                         true error)]> (heap w);
        manager :=
          {| on_error_func := on_error_func (manager w);
             on_deserialize_exception := on_deserialize_exception (manager w);
             topics_ :=
               <[ep := <[name protocol := fresh (dom (heap w))]>
                         (default ∅ (topics_ (manager w) !! ep))]>
                 (topics_ (manager w)) |} |},
     returned,
     [make_shared (fresh (dom (heap w)));
      session_action (fresh (dom (heap w))) connection_start]).
Proof.
  intros Hfind. unfold sub, make_sub_session.
  rewrite (sub_impl_stores ep (name protocol) (fresh (dom (heap w)))
             (make_session ep (name protocol) (pack_topic protocol) true error));
    [|done|apply lookup_insert_eq].
  unfold set_heap, set_topics. simpl. by rewrite insert_insert_eq.
Qed.

Lemma fresh_not_in_heap (w : world) : heap w !! fresh (dom (heap w)) = None.
Proof. apply not_elem_of_dom, is_fresh. Qed.

(** X6: when no session is registered for the pair, [sub] returns
    normally; it makes one new session object, at an address that held no
    object before, with a message callback and with an error callback
    exactly when one was passed; it stores that address under the pair and
    starts the session, whose running flag is then set and which has asked
    its connection to connect.  Every other entry of the store and every
    other object are as before. *)
Theorem sub_registers_and_starts (ep : endpoint) (protocol : protocol_t)
    (error : bool) (w : world) :
  find_session (topics_ (manager w)) ep (name protocol) = None →
  let r := sub ep protocol error w in
  let p := fresh (dom (heap w)) in
  r.1.2 = returned
  ∧ r.2 = [make_shared p; session_action p connection_start]
  ∧ heap w !! p = None
  ∧ find_session (topics_ (manager r.1.1)) ep (name protocol) = Some p
  ∧ heap r.1.1 !! p
    = Some (set_running_flag true
              (make_session ep (name protocol) (pack_topic protocol) true error))
  ∧ (∀ ep' t', (ep', t') ≠ (ep, name protocol) →
       find_session (topics_ (manager r.1.1)) ep' t'
       = find_session (topics_ (manager w)) ep' t')
  ∧ (∀ q, q ≠ p → heap r.1.1 !! q = heap w !! q).
Proof.
  intros Hfind. cbv zeta. rewrite (sub_stores ep protocol error w Hfind). simpl.
  split; [done|]. split; [done|]. split; [apply fresh_not_in_heap|].
  split; [apply find_session_insert_same|].
  split; [apply lookup_insert_eq|]. split.
  - intros ep' t' Hne. by apply find_session_insert_other.
  - intros q Hq. by rewrite lookup_insert_ne.
Qed.

Lemma sub_registers_and_starts_witness :
  (sub ep0 sport false one_session_world).1.2 = returned
  ∧ find_session (topics_ (manager (sub ep0 sport false one_session_world).1.1))
      ep0 "news" = Some 1%nat.
Proof.
  destruct (sub_registers_and_starts ep0 sport false one_session_world)
    as (Hret & _ & _ & _ & _ & Hother & _).
  - vm_compute. reflexivity.
  - split; [exact Hret|].
    rewrite (Hother ep0 "news"%string); [vm_compute; reflexivity|].
    intros Heq. discriminate Heq.
Defined.

Lemma remove_after_insert (r : endpoint_map_t) s p :
  no_empty_bucket r →
  find_session r (get_endpoint s) (get_topic s) = None →
  remove s (<[get_endpoint s :=
               <[get_topic s := p]> (default ∅ (r !! get_endpoint s))]> r)
  = r.
Proof.
  intros Hwf Hfind. rewrite remove_unfold, lookup_insert_eq.
  unfold find_session in Hfind.
  destruct (r !! get_endpoint s) as [b|] eqn:Hb; simpl in *.
  - rewrite (delete_insert_id b _ _ Hfind).
    rewrite decide_False by by apply (Hwf _ _ Hb).
    rewrite insert_insert_eq. by apply insert_id.
  - rewrite delete_insert_id by apply lookup_empty.
    rewrite decide_True by done. by apply delete_insert_id.
Qed.

(** X7: subscribing and then removing is a round trip on the store: when
    no session was registered for the pair and the store has no empty topic
    map, [remove] of the session that [sub] has just registered gives back
    exactly the store from before the [sub], with or without other topics at
    the same endpoint. *)
Theorem sub_then_remove_restores_store (ep : endpoint) (protocol : protocol_t)
    (error : bool) (w : world) :
  no_empty_bucket (topics_ (manager w)) →
  find_session (topics_ (manager w)) ep (name protocol) = None →
  let w' := (sub ep protocol error w).1.1 in
  topics_ (manager (remove_session (fresh (dom (heap w))) w'))
  = topics_ (manager w).
Proof.
  intros Hwf Hfind. cbv zeta. rewrite (sub_stores ep protocol error w Hfind).
  unfold remove_session. simpl. rewrite lookup_insert_eq. simpl.
  apply (remove_after_insert (topics_ (manager w))
           (set_running_flag true
              (make_session ep (name protocol) (pack_topic protocol) true error)));
    done.
Qed.

Lemma one_topic_no_empty_bucket : no_empty_bucket one_topic.
Proof. apply no_empty_bucket_singleton, map_non_empty_singleton. Qed.

Lemma sub_then_remove_restores_store_witness :
  topics_ (manager (remove_session (fresh (dom (heap one_session_world)))
                      (sub ep0 sport false one_session_world).1.1))
  = one_topic.
Proof.
  apply (sub_then_remove_restores_store ep0 sport false one_session_world).
  - apply one_topic_no_empty_bucket.
  - vm_compute. reflexivity.
Defined.

(** ** An invariant of the manager and its sessions *)

Lemma sub_duplicate_world ep protocol error w first :
  find_session (topics_ (manager w)) ep (name protocol) = Some first →
  (sub ep protocol error w).1.1 = w.
Proof.
  intros Hfind. destruct w as [hp mg]. unfold find_session in Hfind.
  simpl in Hfind.
  destruct (topics_ mg !! ep) as [b|] eqn:Hb; [|done]. simpl in Hfind.
  unfold sub, make_sub_session, sub_impl. simpl. rewrite Hb, Hfind. simpl.
  unfold set_heap. simpl. f_equal.
  apply delete_insert_id, not_elem_of_dom, is_fresh.
Qed.

Lemma remove_find_Some s r ep t p :
  find_session (remove s r) ep t = Some p → find_session r ep t = Some p.
Proof.
  intros Hp.
  destruct (decide ((ep, t) = (get_endpoint s, get_topic s))) as [[= -> ->]|Hne].
  - by rewrite remove_find_same in Hp.
  - by rewrite remove_find_other in Hp.
Qed.

(** Entries may go and objects may change, as long as every object keeps
    its endpoint and topic. *)
Lemma registry_consistent_shrink w hp' mg' :
  registry_consistent w →
  (∀ ep t q, find_session (topics_ mg') ep t = Some q →
     find_session (topics_ (manager w)) ep t = Some q) →
  (∀ q s, heap w !! q = Some s →
     ∃ s', hp' !! q = Some s'
           ∧ get_endpoint s' = get_endpoint s ∧ get_topic s' = get_topic s) →
  registry_consistent {| heap := hp'; manager := mg' |}.
Proof.
  intros Hc Hsub Hheap ep t q Hq. simpl in *.
  destruct (Hc ep t q (Hsub ep t q Hq)) as (s & Hs & He & Ht).
  destruct (Hheap q s Hs) as (s' & Hs' & He' & Ht').
  exists s'. split; [done|]. split; congruence.
Qed.

Lemma heap_insert_same_key (hp : gmap sub_session_ptr sub_session) p s0 s1 :
  hp !! p = Some s0 →
  get_endpoint s1 = get_endpoint s0 → get_topic s1 = get_topic s0 →
  ∀ q s, hp !! q = Some s →
    ∃ s', <[p := s1]> hp !! q = Some s'
          ∧ get_endpoint s' = get_endpoint s ∧ get_topic s' = get_topic s.
Proof.
  intros Hp He Ht q s Hq. destruct (decide (q = p)) as [->|Hne].
  - rewrite lookup_insert_eq. exists s1. split; [done|].
    assert (s = s0) as -> by congruence. done.
  - rewrite lookup_insert_ne by done. by exists s.
Qed.

Lemma world_invariant_new unpack_exception :
  world_invariant (new_world unpack_exception).
Proof.
  split; [done|]. split; [apply no_empty_bucket_empty|].
  intros ep t p Hp. unfold find_session in Hp. simpl in Hp.
  by rewrite lookup_empty in Hp.
Qed.

Lemma world_invariant_sub ep protocol error w :
  world_invariant w → world_invariant (sub ep protocol error w).1.1.
Proof.
  intros (Hh & Hwf & Hc).
  destruct (find_session (topics_ (manager w)) ep (name protocol))
    as [first|] eqn:Hfind.
  { by rewrite (sub_duplicate_world ep protocol error w first Hfind). }
  split; [|split].
  - rewrite (sub_stores ep protocol error w Hfind). done.
  - by apply sub_no_empty_bucket.
  - rewrite (sub_stores ep protocol error w Hfind). simpl.
    intros ep' t' q Hq. simpl in Hq.
    destruct (decide ((ep', t') = (ep, name protocol))) as [[= -> ->]|Hne].
    + rewrite find_session_insert_same in Hq. injection Hq as <-.
      eexists. simpl. split; [apply lookup_insert_eq|done].
    + rewrite find_session_insert_other in Hq by done.
      destruct (Hc ep' t' q Hq) as (s & Hs & He & Ht).
      exists s. simpl. split; [|done].
      rewrite lookup_insert_ne; [done|].
      intros <-. by rewrite fresh_not_in_heap in Hs.
Qed.

Lemma world_invariant_remove_session p w :
  world_invariant w → world_invariant (remove_session p w).
Proof.
  intros (Hh & Hwf & Hc). unfold remove_session.
  destruct (heap w !! p) as [s|] eqn:Hp; [|done].
  split; [done|]. split; [by apply remove_no_empty_bucket|].
  apply (registry_consistent_shrink w); [done| |by eauto].
  intros ep t q. apply remove_find_Some.
Qed.

Lemma world_invariant_complete_at p k error w :
  world_invariant w → world_invariant (complete_at p k error w).1.
Proof.
  intros (Hh & Hwf & Hc). unfold complete_at.
  destruct (heap w !! p) as [s|] eqn:Hp; [|done].
  pose proof (handlers_keep_identity_aux k error {| self := s; proc := manager w |})
    as (He & Ht & Hk).
  pose proof (run_handler_topics k error {| self := s; proc := manager w |}
                (or_introl Hh)) as Htop.
  destruct (run_handler k error {| self := s; proc := manager w |})
    as [st' acts]. simpl in *.
  unfold world_invariant. simpl. split; [congruence|]. split.
  - destruct Htop as [-> | ->]; [done|by apply remove_no_empty_bucket].
  - apply (registry_consistent_shrink w); [done| |].
    + intros ep t q. destruct Htop as [-> | ->]; [done|apply remove_find_Some].
    + by apply (heap_insert_same_key (heap w) p s).
Qed.

Lemma world_invariant_update_at p f w :
  (∀ s, get_endpoint (f s) = get_endpoint s ∧ get_topic (f s) = get_topic s) →
  world_invariant w → world_invariant (update_at p f w).
Proof.
  intros Hf (Hh & Hwf & Hc). unfold update_at.
  destruct (heap w !! p) as [s|] eqn:Hp; [|done].
  split; [done|]. split; [done|].
  apply (registry_consistent_shrink w); [done|done|].
  apply (heap_insert_same_key (heap w) p s); [done|apply Hf|apply Hf].
Qed.

Lemma world_invariant_run_steps xs : ∀ w,
  world_invariant w → world_invariant (run_steps xs w).
Proof.
  induction xs as [|x xs IH]; intros w Hw; [done|].
  simpl. apply IH. destruct x; simpl.
  - by apply world_invariant_sub.
  - by apply world_invariant_remove_session.
  - by apply world_invariant_complete_at.
  - by apply world_invariant_update_at.
  - by apply world_invariant_update_at.
  - by apply world_invariant_update_at.
Qed.

(** X8: whatever calls of [sub] and [remove], completions, buffer fills
    and socket changes follow the construction of a manager, in any order
    and with any arguments, the store never keeps an endpoint with an empty
    topic map; every stored pointer is that of an existing session object
    whose own endpoint and topic are the key it is stored under; and no
    session is stored under two keys. *)
Theorem manager_keeps_store_consistent
    (unpack_exception : bytes → exception) (xs : list step) :
  let w := run_steps xs (new_world unpack_exception) in
  no_empty_bucket (topics_ (manager w))
  ∧ registry_consistent w
  ∧ (∀ ep t ep' t' p,
       find_session (topics_ (manager w)) ep t = Some p →
       find_session (topics_ (manager w)) ep' t' = Some p →
       ep = ep' ∧ t = t').
Proof.
  cbv zeta.
  destruct (world_invariant_run_steps xs (new_world unpack_exception)
              (world_invariant_new unpack_exception)) as (_ & Hwf & Hc).
  split; [done|]. split; [done|].
  intros ep t ep' t' p H1 H2.
  destruct (Hc ep t p H1) as (s & Hs & <- & <-).
  destruct (Hc ep' t' p H2) as (s' & Hs' & <- & <-).
  assert (s = s') as -> by congruence. done.
Qed.

(** Two subscriptions, a failed read of the first session once its socket
    is open, and a second [remove] of it: the session left in the store is
    the one of [sport]. *)
Lemma manager_keeps_store_consistent_witness :
  ∃ s, heap (run_steps
               [step_sub ep0 news true; step_sub ep0 sport false;
                step_socket 0 true; step_complete 0 h_sub_head broken_pipe;
                step_remove 0]
               (new_world toy_unpack)) !! 1%nat = Some s
       ∧ get_endpoint s = ep0 ∧ get_topic s = "sport"%string.
Proof.
  apply (proj1 (proj2 (manager_keeps_store_consistent toy_unpack
           [step_sub ep0 news true; step_sub ep0 sport false;
            step_socket 0 true; step_complete 0 h_sub_head broken_pipe;
            step_remove 0]))).
  vm_compute. reflexivity.
Defined.

(** ** Reads, writes and waits *)

(** X9: the two chains of a session keep to their own operations.  No
    handler issues more than one read; only [handle_heartbeat] writes, and
    neither it nor [handle_send_hb] reads or delivers a message; a wait is
    started only by [handle_response_sub_body] and [handle_heartbeat]; and
    the message callback is called by [handle_sub_body] alone. *)
Theorem handlers_read_write_discipline (k : handler) (error : sys_error) (st : state) :
  let acts := (run_handler k error st).2 in
  (length (List.filter is_async_read acts) ≤ 1)%nat
  ∧ (k ≠ h_heartbeat → List.filter is_async_write acts = [])
  ∧ (k = h_heartbeat ∨ k = h_send_hb →
     List.filter is_async_read acts = [] ∧ List.filter is_call_function acts = [])
  ∧ (k ≠ h_response_sub_body → k ≠ h_heartbeat →
     List.filter is_async_wait acts = [])
  ∧ (k ≠ h_sub_body → List.filter is_call_function acts = []).
Proof.
  cbv zeta.
  destruct k; simpl;
    unfold handle_request_sub, handle_response_sub_head,
      handle_response_sub_body, handle_sub_head, handle_sub_body,
      handle_heartbeat, handle_send_hb, on_error_response, on_error;
    destruct (alive st); simpl;
    try destruct (failed error); simpl;
    repeat match goal with
           | |- context [if ?b then _ else _] => destruct b; simpl
           | |- context [match ?o with Some _ => _ | None => _ end] =>
               destruct o; simpl
           end;
    repeat split; intros; try done; try lia;
    repeat match goal with H : _ ∨ _ |- _ => destruct H end; done.
Qed.

Lemma handlers_read_write_discipline_witness :
  List.filter is_async_write
    (run_handler h_sub_body success (running_state true)).2 = []
  ∧ List.filter is_async_read
      (run_handler h_heartbeat success (running_state true)).2 = [].
Proof.
  split.
  - apply (proj1 (proj2 (handlers_read_write_discipline h_sub_body success
                           (running_state true)))).
    discriminate.
  - apply (proj1 (proj2 (proj2 (handlers_read_write_discipline h_heartbeat
                                  success (running_state true))))).
    left. reflexivity.
Defined.

Lemma heartbeat_round st :
  alive st = true →
  run_completions [(h_heartbeat, success); (h_send_hb, success)] st
  = (with_self (set_send_head head_zero (self st)) st,
     [async_write [buf_head head_zero] h_send_hb; async_wait 15 h_heartbeat]).
Proof.
  intros Hg. unfold alive in Hg. simpl.
  unfold handle_heartbeat, handle_send_hb, alive. simpl.
  rewrite Hg. simpl. rewrite Hg. done.
Qed.

Lemma run_completions_app cs1 cs2 st :
  run_completions (cs1 ++ cs2) st
  = let '(st1, acts1) := run_completions cs1 st in
    let '(st2, acts2) := run_completions cs2 st1 in
    (st2, acts1 ++ acts2).
Proof.
  revert st. induction cs1 as [|[k error] cs1 IH]; intros st; simpl.
  - by destruct (run_completions cs2 st).
  - destruct (run_handler k error st) as [st' acts]. rewrite IH.
    destruct (run_completions cs1 st') as [st1 acts1].
    destruct (run_completions cs2 st1) as [st2 acts2].
    by rewrite app_assoc.
Qed.

(** X10: while the socket is open and the session is running, the
    heartbeat chain goes on for as long as its waits complete: [n] expiries,
    each followed by the completion of its ping, give exactly [n] pings of a
    zero header and [n] new waits of 15 seconds, in turn, and nothing else;
    the session is still running afterwards and the store is untouched. *)
Theorem heartbeat_loop (n : nat) (st : state) :
  socket_is_open (self st) = true →
  running_flag_ (self st) = true →
  let r := run_completions
             (concat (replicate n [(h_heartbeat, success); (h_send_hb, success)]))
             st in
  r.2 = concat (replicate n
          [async_write [buf_head head_zero] h_send_hb; async_wait 15 h_heartbeat])
  ∧ running_flag_ (self r.1) = true
  ∧ socket_is_open (self r.1) = true
  ∧ proc r.1 = proc st.
Proof.
  intros Ho Hr. cbv zeta. revert st Ho Hr.
  induction n as [|n IH]; intros st Ho Hr; [done|].
  change (concat (replicate (S n) ?x)) with (x ++ concat (replicate n x)).
  rewrite run_completions_app, (heartbeat_round st (open_running_alive st Ho Hr)).
  specialize (IH (with_self (set_send_head head_zero (self st)) st) Ho Hr).
  destruct (run_completions _ (with_self _ st)) as [st2 acts2].
  simpl in *. destruct IH as (-> & -> & -> & ->). done.
Qed.

Lemma heartbeat_loop_witness :
  (run_completions
     (concat (replicate 3 [(h_heartbeat, success); (h_send_hb, success)]))
     (running_state true)).2
  = concat (replicate 3
      [async_write [buf_head head_zero] h_send_hb; async_wait 15 h_heartbeat]).
Proof.
  apply (heartbeat_loop 3 (running_state true)); reflexivity.
Defined.

(** ** Removing in either order *)

Lemma lookup_remove (s : sub_session) (r : endpoint_map_t) (ep : endpoint) :
  remove s r !! ep
  = if decide (ep = get_endpoint s)
    then r !! ep ≫= λ b : topics_map_t,
           if decide (delete (get_topic s) b = ∅) then None
           else Some (delete (get_topic s) b)
    else r !! ep.
Proof.
  case_decide as He.
  - subst ep. destruct (r !! get_endpoint s) as [b|] eqn:Hb.
    + by rewrite (remove_lookup_same s r b Hb).
    + by rewrite remove_unfold, Hb, Hb.
  - by apply remove_lookup_other.
Qed.

(** X11: two removals commute: whichever of two sessions is removed
    first, the store is the same afterwards, also when both are at one
    endpoint and the second removal empties its topic map. *)
Theorem remove_commutes (s1 s2 : sub_session) (r : endpoint_map_t) :
  remove s1 (remove s2 r) = remove s2 (remove s1 r).
Proof.
  apply map_eq. intros ep. rewrite !lookup_remove.
  destruct (decide (ep = get_endpoint s1)) as [H1|H1],
           (decide (ep = get_endpoint s2)) as [H2|H2]; try done.
  destruct (r !! ep) as [b|]; [|done]. simpl.
  destruct (decide (delete (get_topic s2) b = ∅)) as [E2|E2],
           (decide (delete (get_topic s1) b = ∅)) as [E1|E1]; simpl.
  - done.
  - rewrite delete_delete, E2, delete_empty. by rewrite decide_True.
  - rewrite delete_delete, E1, delete_empty. by rewrite decide_True.
  - rewrite (delete_delete b (get_topic s1) (get_topic s2)). done.
Qed.

(** ** The two chains do not disturb each other *)

Lemma same_but_send_head_fields st1 st2 :
  same_but_send_head st1 st2 →
  proc st1 = proc st2
  ∧ connection_endpoint (self st1) = connection_endpoint (self st2)
  ∧ socket_is_open (self st1) = socket_is_open (self st2)
  ∧ recv_head_ (self st1) = recv_head_ (self st2)
  ∧ topic_string_ (self st1) = topic_string_ (self st2)
  ∧ topic_ (self st1) = topic_ (self st2)
  ∧ response_ (self st1) = response_ (self st2)
  ∧ function_ (self st1) = function_ (self st2)
  ∧ error_ (self st1) = error_ (self st2)
  ∧ running_flag_ (self st1) = running_flag_ (self st2).
Proof.
  intros [Hp Hs]. split; [done|].
  unfold set_send_head in Hs. by injection Hs.
Qed.

Lemma run_handler_same_but_send_head k error st1 st2 :
  on_error_func (proc st1) = Some remove ∨ on_error_func (proc st1) = None →
  same_but_send_head st1 st2 →
  (run_handler k error st1).2 = (run_handler k error st2).2
  ∧ same_but_send_head (run_handler k error st1).1 (run_handler k error st2).1.
Proof.
  intros Hh Hsame.
  destruct (same_but_send_head_fields st1 st2 Hsame)
    as (Hp & He & Ho & Hrh & Hts & Ht & Hrs & Hf & Her & Hr).
  destruct st1 as [s1 p1], st2 as [s2 p2]. simpl in *. subst p2.
  assert (∀ e, (on_error e {| self := s1; proc := p1 |}).2
               = (on_error e {| self := s2; proc := p1 |}).2
             ∧ same_but_send_head (on_error e {| self := s1; proc := p1 |}).1
                 (on_error e {| self := s2; proc := p1 |}).1) as Hon.
  { intros e. unfold on_error, same_but_send_head, get_endpoint, get_topic.
    simpl. rewrite Her, He, Hts.
    destruct Hh as [-> | ->]; simpl; [|by destruct Hsame].
    rewrite (remove_same_key s1 s2) by done. by destruct Hsame. }
  assert (∀ r, same_but_send_head
                 {| self := set_response r s1; proc := p1 |}
                 {| self := set_response r s2; proc := p1 |}) as Hresp.
  { intros r. split; [done|]. unfold set_send_head, set_response. simpl.
    by rewrite He, Ho, Hrh, Hts, Ht, Hf, Her, Hr. }
  assert (same_but_send_head
            {| self := set_send_head head_zero s1; proc := p1 |}
            {| self := set_send_head head_zero s2; proc := p1 |}) as Hsend.
  { split; [done|]. unfold set_send_head. simpl.
    by rewrite He, Ho, Hrh, Hts, Ht, Hrs, Hf, Her, Hr. }
  destruct k; simpl;
    unfold handle_request_sub, handle_response_sub_head,
      handle_response_sub_body, handle_sub_head, handle_sub_body,
      handle_heartbeat, handle_send_hb, on_error_response, alive, with_self;
    simpl; rewrite Ho, Hr, ?Hrh, ?Hrs, ?Hf;
    destruct (socket_is_open s2 && running_flag_ s2); simpl; try done;
    destruct (failed error); simpl; try done; try apply Hon;
    repeat match goal with
           | |- context [if ?b then _ else _] => destruct b; simpl
           | |- context [match ?o with Some _ => _ | None => _ end] =>
               destruct o; simpl
           end;
    try done; try apply Hon; try (split; [done|apply Hresp]);
    try (split; [done|apply Hsend]).
Qed.

Lemma same_but_send_head_fill (f : sub_session → sub_session) st1 st2 :
  (∀ s s', set_send_head head_zero s = set_send_head head_zero s' →
           set_send_head head_zero (f s) = set_send_head head_zero (f s')) →
  same_but_send_head st1 st2 →
  same_but_send_head (with_self (f (self st1)) st1) (with_self (f (self st2)) st2).
Proof. intros Hf [Hp Hs]. split; [done|]. by apply Hf. Qed.

Lemma set_recv_head_same h s s' :
  set_send_head head_zero s = set_send_head head_zero s' →
  set_send_head head_zero (set_recv_head h s)
  = set_send_head head_zero (set_recv_head h s').
Proof.
  unfold set_send_head, set_recv_head. simpl. intros Hs.
  injection Hs as -> -> _ -> -> -> -> -> ->. done.
Qed.

Lemma set_response_same b s s' :
  set_send_head head_zero s = set_send_head head_zero s' →
  set_send_head head_zero (set_response b s)
  = set_send_head head_zero (set_response b s').
Proof.
  unfold set_send_head, set_response. simpl. intros Hs.
  injection Hs as -> -> -> -> -> _ -> -> ->. done.
Qed.

Lemma run_handler_hook_kept k error st :
  on_error_func (proc st) = Some remove ∨ on_error_func (proc st) = None →
  on_error_func (proc (run_handler k error st).1) = Some remove
  ∨ on_error_func (proc (run_handler k error st).1) = None.
Proof.
  destruct (handlers_keep_identity_aux k error st) as (_ & _ & ->). done.
Qed.

Lemma receive_chain_same_but_send_head input : ∀ op st1 st2,
  on_error_func (proc st1) = Some remove ∨ on_error_func (proc st1) = None →
  same_but_send_head st1 st2 →
  (receive_chain input op st1).1.2 = (receive_chain input op st2).1.2
  ∧ (receive_chain input op st1).2 = (receive_chain input op st2).2
  ∧ same_but_send_head (receive_chain input op st1).1.1
      (receive_chain input op st2).1.1.
Proof.
  induction input as [|w input IH]; intros op st1 st2 Hh Hsame; [done|].
  destruct op as [o|]; [|done]. simpl.
  assert (∀ f : sub_session → sub_session,
            same_but_send_head (with_self (f (self st1)) st1)
              (with_self (f (self st2)) st2) →
            ∀ k,
            let r1 := run_handler k success (with_self (f (self st1)) st1) in
            let r2 := run_handler k success (with_self (f (self st2)) st2) in
            (receive_chain input (issued_read r1.2) r1.1).1.2
            = (receive_chain input (issued_read r2.2) r2.1).1.2
            ∧ r1.2 = r2.2
            ∧ (receive_chain input (issued_read r1.2) r1.1).2
              = (receive_chain input (issued_read r2.2) r2.1).2
            ∧ same_but_send_head
                (receive_chain input (issued_read r1.2) r1.1).1.1
                (receive_chain input (issued_read r2.2) r2.1).1.1) as Hstep.
  { intros f Hs' k. cbv zeta.
    destruct (run_handler_same_but_send_head k success
                (with_self (f (self st1)) st1) (with_self (f (self st2)) st2)
                Hh Hs') as [Ha Hs''].
    pose proof (run_handler_hook_kept k success
                  (with_self (f (self st1)) st1) Hh) as Hh'.
    rewrite <- Ha.
    destruct (IH (issued_read
                    (run_handler k success (with_self (f (self st1)) st1)).2)
                _ _ Hh' Hs'') as (H1 & H2 & H3).
    done. }
  destruct o as [k|n k], w as [h|b]; simpl; try done.
  - destruct (Hstep (set_recv_head h)
                (same_but_send_head_fill _ st1 st2 (set_recv_head_same h) Hsame) k)
      as (H1 & H2 & H3 & H4). cbv zeta in *.
    destruct (run_handler k success (with_self (set_recv_head h (self st1)) st1))
      as [st1' acts1].
    destruct (run_handler k success (with_self (set_recv_head h (self st2)) st2))
      as [st2' acts2].
    simpl in *.
    destruct (receive_chain input (issued_read acts1) st1') as [[a1 b1] c1].
    destruct (receive_chain input (issued_read acts2) st2') as [[a2 b2] c2].
    simpl in *. by subst.
  - case_decide; [|done].
    destruct (Hstep (set_response b)
                (same_but_send_head_fill _ st1 st2 (set_response_same b) Hsame) k)
      as (H1 & H2 & H3 & H4). cbv zeta in *.
    destruct (run_handler k success (with_self (set_response b (self st1)) st1))
      as [st1' acts1].
    destruct (run_handler k success (with_self (set_response b (self st2)) st2))
      as [st2' acts2].
    simpl in *.
    destruct (receive_chain input (issued_read acts1) st1') as [[a1 b1] c1].
    destruct (receive_chain input (issued_read acts2) st2') as [[a2 b2] c2].
    simpl in *. by subst.
Qed.

(** X12: a heartbeat expiry handled between two reads does not change
    what the receive chain does.  With the manager's hook installed (or
    none), whatever then arrives on the socket and whichever read is
    outstanding, the receive chain issues the same operations, makes the
    same calls of the callbacks and of the hook, ends with the same read
    outstanding and leaves the same store and receive buffer, whether or not
    [handle_heartbeat] ran first, with or without error. *)
Theorem heartbeat_does_not_disturb_receive_chain
    (error : sys_error) (input : list wire) (op : option read_op) (st : state) :
  on_error_func (proc st) = Some remove ∨ on_error_func (proc st) = None →
  let after := receive_chain input op (handle_heartbeat error st).1 in
  let plain := receive_chain input op st in
  after.1.2 = plain.1.2
  ∧ after.2 = plain.2
  ∧ topics_ (proc after.1.1) = topics_ (proc plain.1.1)
  ∧ response_ (self after.1.1) = response_ (self plain.1.1)
  ∧ running_flag_ (self after.1.1) = running_flag_ (self plain.1.1).
Proof.
  intros Hh. cbv zeta.
  assert (same_but_send_head (handle_heartbeat error st).1 st) as Hsame.
  { unfold handle_heartbeat.
    destruct (negb (alive st)); [done|]. by destruct (negb (failed error)). }
  assert (on_error_func (proc (handle_heartbeat error st).1) = Some remove
          ∨ on_error_func (proc (handle_heartbeat error st).1) = None) as Hh'.
  { destruct (handlers_keep_identity_aux h_heartbeat error st) as (_ & _ & Hk).
    simpl in Hk. by rewrite Hk. }
  destruct (receive_chain_same_but_send_head input op _ st Hh' Hsame)
    as (Ha & Hop & Hs).
  destruct (same_but_send_head_fields _ _ Hs)
    as (Hp & _ & _ & _ & _ & _ & Hrs & _ & _ & Hr).
  by rewrite Ha, Hop, Hp, Hrs, Hr.
Qed.

Lemma heartbeat_does_not_disturb_receive_chain_witness :
  (receive_chain (frames [(head_of_len 12, body12)])
     (Some (read_head h_sub_head))
     (handle_heartbeat success (running_state true)).1).1.2
  = (receive_chain (frames [(head_of_len 12, body12)])
       (Some (read_head h_sub_head)) (running_state true)).1.2.
Proof.
  apply (heartbeat_does_not_disturb_receive_chain success
           (frames [(head_of_len 12, body12)]) (Some (read_head h_sub_head))
           (running_state true)).
  left. reflexivity.
Defined.

(** ** Sessions without hooks *)

(** X13: the hooks are optional.  While no failure hook is installed, a
    failed read or write still reaches the session's error callback, with
    kind BADCONNECTION and the system text, but the store is left as it is.
    While no deserialization hook is installed, a handshake reply with a
    result other than OK is read and then dropped: no callback, no hook, no
    further read, and the store is left as it is. *)
Theorem sessions_without_hooks (st : state) :
  socket_is_open (self st) = true →
  running_flag_ (self st) = true →
  (on_error_func (proc st) = None →
   ∀ k error, k ≠ h_heartbeat → value error ≠ 0 →
     run_handler k error st
     = (st, if error_ (self st)
            then [call_error {| ex_code := BADCONNECTION;
                                ex_message := message error |}]
            else []))
  ∧ (on_deserialize_exception (proc st) = None →
     ∀ h B, code h ≠ result_code_OK → (0 < len h)%N →
       length B = N.to_nat (len h) →
       let r := receive_chain (frame h B)
                  (Some (read_head h_response_sub_head)) st in
       r.1.2 = [async_read_body (length B) h_response_sub_body]
       ∧ r.2 = None
       ∧ proc r.1.1 = proc st).
Proof.
  intros Ho Hr. pose proof (open_running_alive st Ho Hr) as Hg. split.
  - intros Hh k error Hk Hv. pose proof (failed_true error Hv) as Hf.
    assert (run_handler k error st = on_error (bad_connection error) st) as ->.
    { destruct k; simpl;
        unfold handle_request_sub, handle_response_sub_head,
          handle_response_sub_body, handle_sub_head, handle_sub_body,
          handle_send_hb;
        rewrite ?Hg, ?Hf; simpl; done. }
    unfold on_error. by rewrite Hh.
  - intros Hd h B Hc Hlen Hb. unfold alive in Hg.
    apply N.ltb_lt in Hlen as Hlt.
    assert ((result_code_OK =? code h) = false) as Hne
      by (apply Z.eqb_neq; congruence).
    unfold frame. rewrite Hlt. simpl.
    unfold handle_response_sub_head, alive. simpl. rewrite Hg, Hlt. simpl.
    rewrite <- Hb, decide_True by done. simpl.
    unfold handle_response_sub_body, alive. fields. rewrite Hg, Hne. simpl.
    unfold on_error_response. simpl. rewrite Hd. done.
Qed.

Lemma sessions_without_hooks_witness :
  run_handler h_sub_head broken_pipe
    {| self := running_session true;
       proc := {| on_error_func := None; on_deserialize_exception := None;
                  topics_ := one_topic |} |}
  = ({| self := running_session true;
        proc := {| on_error_func := None; on_deserialize_exception := None;
                   topics_ := one_topic |} |},
     [call_error {| ex_code := BADCONNECTION; ex_message := "Broken pipe" |}])
  ∧ (receive_chain (frame denied_head denied_body)
       (Some (read_head h_response_sub_head))
       {| self := running_session true;
          proc := {| on_error_func := None; on_deserialize_exception := None;
                     topics_ := one_topic |} |}).2 = None.
Proof.
  destruct (sessions_without_hooks
              {| self := running_session true;
                 proc := {| on_error_func := None;
                            on_deserialize_exception := None;
                            topics_ := one_topic |} |} eq_refl eq_refl)
    as [Hio Hrej].
  split.
  - apply (Hio eq_refl h_sub_head broken_pipe); discriminate.
  - apply (Hrej eq_refl denied_head denied_body);
      [discriminate|reflexivity|reflexivity].
Defined.

(** ** From [sub] to a failed handshake *)

(** X14: a subscription whose handshake request cannot be written undoes
    itself.  From a manager whose store has no empty topic map and no
    session for the pair: [sub], then the connection established and the
    request built, then the request write completing with an error, give
    the error callback (when
    one was passed to [sub]) the BADCONNECTION exception with the system
    text, call the hook for the pair, and leave the store exactly as it was
    before the [sub], so that the pair can be subscribed again. *)
Theorem failed_handshake_write_unregisters (sub_topic_name : string)
    (ep : endpoint) (protocol : protocol_t)
    (error : bool) (failure : sys_error) (w : world) :
  on_error_func (manager w) = Some remove →
  no_empty_bucket (topics_ (manager w)) →
  find_session (topics_ (manager w)) ep (name protocol) = None →
  value failure ≠ 0 →
  let p := fresh (dom (heap w)) in
  let w1 := (sub ep protocol error w).1.1 in
  let w2 := update_at p (set_socket_is_open true) w1 in
  let w3 := update_at p (λ s, (request_sub_message sub_topic_name s).1) w2 in
  let r := complete_at p h_request_sub failure w3 in
  r.2 = session_action p <$>
          ((if error
            then [call_error {| ex_code := BADCONNECTION;
                                ex_message := message failure |}]
            else [])
             ++ [call_on_error_func ep (name protocol)])
  ∧ topics_ (manager r.1) = topics_ (manager w)
  ∧ find_session (topics_ (manager r.1)) ep (name protocol) = None
  ∧ (sub ep protocol error r.1).1.2 = returned.
Proof.
  intros Hh Hwf Hfind Hv. cbv zeta.
  rewrite (sub_stores ep protocol error w Hfind).
  unfold update_at, complete_at. simpl.
  rewrite lookup_insert_eq. simpl. rewrite lookup_insert_eq. simpl.
  rewrite lookup_insert_eq.
  unfold handle_request_sub, alive. simpl.
  rewrite (failed_true failure Hv). simpl.
  rewrite on_error_with_hook by done. simpl.
  match goal with |- context [remove ?s ?t] =>
    assert (remove s t = topics_ (manager w)) as ->
      by (apply (remove_after_insert (topics_ (manager w)) s); done)
  end.
  split; [done|]. split; [done|]. split; [done|].
  match goal with |- (sub ep protocol error ?w').1.2 = _ =>
    by rewrite (sub_stores ep protocol error w' Hfind)
  end.
Qed.

Lemma failed_handshake_write_unregisters_witness :
  topics_ (manager
    (complete_at (fresh (dom (heap one_session_world))) h_request_sub broken_pipe
       (update_at (fresh (dom (heap one_session_world)))
          (λ s, (request_sub_message "sub_topic" s).1)
          (update_at (fresh (dom (heap one_session_world)))
             (set_socket_is_open true)
             (sub ep0 sport true one_session_world).1.1))).1)
  = one_topic.
Proof.
  apply (failed_handshake_write_unregisters "sub_topic" ep0 sport true
           broken_pipe one_session_world).
  - reflexivity.
  - apply one_topic_no_empty_bucket.
  - vm_compute. reflexivity.
  - discriminate.
Defined.
